(** * Scan report pipeline: a shallow embedding of the two dashboard scripts

    The repository holds two batch scripts, [scan_records_dashboard.py] and
    [rs2_dr_dashboard.py]. Each one loads a CSV of scan events, normalises
    it ([load_data]) and aggregates it ([summarize]).

    The scripts are written against pandas and the Python standard library.
    The development is organised accordingly:
    - [Py]: the [str] methods the scripts call ([strip], [upper], [split])
      and the regular expression [[A-Z]{2}];
    - [Pd]: the pandas and [collections.Counter] operations the scripts
      call (missing values, [value_counts], [groupby(..).size()],
      [sort_values], [reindex], index alignment of arithmetic, ...);
    - [ScanRecords] and [Rs2]: the two scripts, function by function.

    Modelling conventions.
    - A Python [str] is a [string]; a character is read as the code point
      U+0000..U+00FF it denotes.
    - A cell of an object column is a [Pd.cell]: a present value (held by
      its [str()] rendering) or one of the missing-value markers.
    - [Series.astype(str)] renders a missing value as text (["nan"]), which
      is what the scripts themselves rely on ([isin(["", "nan"])]).
    - Python [int] is [Z] or [nat]; a Python [float] that is the quotient of
      two integers, or a mean, is the exact rational [Q].
    - A timestamp is a number of nanoseconds since the epoch, UTC; a value
      that [pd.to_datetime(errors="coerce")] could not parse is [None]. *)

From Stdlib Require Import List Bool Arith ZArith QArith Lia String Ascii.
From Stdlib Require Import Sorted Permutation RelationClasses.
From Stdlib Require Import DecimalString OrdersEx Lqa.
Import ListNotations.

Set Implicit Arguments.

#[local] Close Scope Q_scope.
#[local] Open Scope nat_scope.

(* ------------------------------------------------------------------ *)
(** * Python string operations *)
(* ------------------------------------------------------------------ *)

Module Py.

Local Open Scope N_scope.

(** [str.isspace] on one character, restricted to U+0000..U+00FF:
    TAB..CR, FS..US, SPACE, NEL and NBSP. *)
Definition is_space (c : ascii) : bool :=
  let n := N_of_ascii c in
  ((9 <=? n) && (n <=? 13)) || ((28 <=? n) && (n <=? 32))
  || (n =? 133) || (n =? 160).

(** The character class [[A-Z]]. *)
Definition is_AZ (c : ascii) : bool :=
  let n := N_of_ascii c in (65 <=? n) && (n <=? 90).

(** [str.upper] on one character. [a]..[z] and the accented Latin-1
    lower-case letters move down by 32; sharp s becomes ["SS"]. The two
    letters whose capital lies outside U+00FF (micro sign, y with
    diaeresis) are kept as they are: neither capital is in [[A-Z]]. *)
Definition upper_char (c : ascii) : string :=
  let n := N_of_ascii c in
  if (97 <=? n) && (n <=? 122) then String (ascii_of_N (n - 32)) EmptyString
  else if n =? 223 then "SS"%string
  else if (224 <=? n) && (n <=? 254) && negb (n =? 247)
       then String (ascii_of_N (n - 32)) EmptyString
  else String c EmptyString.

Fixpoint upper (s : string) : string :=
  match s with
  | EmptyString => EmptyString
  | String c s' => (upper_char c ++ upper s')%string
  end.

Fixpoint lstrip (s : string) : string :=
  match s with
  | EmptyString => EmptyString
  | String c s' => if is_space c then lstrip s' else s
  end.

Fixpoint rstrip (s : string) : string :=
  match s with
  | EmptyString => EmptyString
  | String c s' =>
      match rstrip s' with
      | EmptyString => if is_space c then EmptyString else String c EmptyString
      | r => String c r
      end
  end.

(** [str.strip()] with no argument. *)
Definition strip (s : string) : string := rstrip (lstrip s).

(** [str.split(sep)] for a one-character separator: never empty, and
    adjacent separators give empty pieces. *)
Fixpoint split (sep : ascii) (s : string) : list string :=
  match s with
  | EmptyString => [EmptyString]
  | String c s' =>
      if Ascii.eqb c sep then EmptyString :: split sep s'
      else match split sep s' with
           | h :: t => String c h :: t
           | [] => [String c EmptyString]
           end
  end.

(** [re.fullmatch(r"[A-Z]{2}", s)]. *)
Definition fullmatch_AZ2 (s : string) : bool :=
  match s with
  | String a (String b EmptyString) => is_AZ a && is_AZ b
  | _ => false
  end.

(** Truth value of a string: [not s] is true exactly for [""]. *)
Definition truthy (s : string) : bool :=
  match s with EmptyString => false | _ => true end.

End Py.

(* ------------------------------------------------------------------ *)
(** * pandas and Counter operations *)
(* ------------------------------------------------------------------ *)

Module Pd.

(** ** Cells and missing values *)

(** A cell of an object column: a present value, [float("nan")] (what
    [read_csv] yields for an empty field), [pd.NA] (what [load_data]
    assigns) or Python's [None] (what [vehicle_label] returns). *)
Inductive cell : Type :=
| Str (s : string)
| NaN
| NA
| PyNone.

(** [pd.isna]. *)
Definition isna (c : cell) : bool :=
  match c with Str _ => false | _ => true end.

(** One element of [Series.astype(str)]: [str(x)]. *)
Definition astype_str (c : cell) : string :=
  match c with
  | Str s => s
  | NaN => "nan"
  | NA => "<NA>"
  | PyNone => "None"
  end.

(** [Series.dropna()] on an object column and on a numeric column. *)
Definition dropna (col : list cell) : list string :=
  flat_map (fun c => match c with Str s => [s] | _ => [] end) col.

Definition dropna_num {A : Type} (col : list (option A)) : list A :=
  flat_map (fun c => match c with Some x => [x] | None => [] end) col.

(** ** Keys: values that pandas hashes and compares *)

Class Key (K : Type) := { keqb : K -> K -> bool }.

(** The comparison of a key type decides equality. *)
Class KeyLaws (K : Type) {HK : Key K} :=
  { keqb_spec : forall a b : K, reflect (a = b) (keqb a b) }.
Arguments KeyLaws K {HK}.

(** Keys that [groupby(sort=True)] puts in ascending order. *)
Class Ord (K : Type) := { kleb : K -> K -> bool }.

(** The order of the keys is total and transitive. *)
Class OrdLaws (K : Type) {OK : Ord K} := {
  kleb_total : forall a b : K, kleb a b = true \/ kleb b a = true;
  kleb_trans : forall a b c : K,
      kleb a b = true -> kleb b c = true -> kleb a c = true
}.
Arguments OrdLaws K {OK}.

(** Strictly ascending keys. *)
Definition key_lt {K : Type} `{Ord K} (a b : K) : Prop :=
  kleb a b = true /\ a <> b.

#[export] Instance Key_string : Key string := {| keqb := String.eqb |}.
#[export] Instance Key_Z : Key Z := {| keqb := Z.eqb |}.

Definition cell_eqb (a b : cell) : bool :=
  match a, b with
  | Str s, Str t => String.eqb s t
  | NaN, NaN | NA, NA | PyNone, PyNone => true
  | _, _ => false
  end.

#[export] Instance Key_cell : Key cell := {| keqb := cell_eqb |}.

#[export] Instance Key_pair {A B} `{Key A} `{Key B} : Key (A * B) :=
  {| keqb := fun p q => keqb (fst p) (fst q) && keqb (snd p) (snd q) |}.

(** Python compares [str] by code point, and tuples lexicographically. *)
#[export] Instance Ord_string : Ord string := {| kleb := String.leb |}.

#[export] Instance Ord_pair {A B} `{Ord A} `{Ord B} : Ord (A * B) :=
  {| kleb := fun p q =>
       if kleb (fst p) (fst q)
       then (if kleb (fst q) (fst p) then kleb (snd p) (snd q) else true)
       else false |}.

(** ** Frequency tables *)

Section Counting.
Context {K : Type} `{Key K}.

(** Number of occurrences of [k] in [l]. *)
Definition occ (k : K) (l : list K) : nat :=
  List.length (filter (keqb k) l).

(** [x in values]. *)
Definition isin (k : K) (values : list K) : bool :=
  existsb (keqb k) values.

(** Position of the first occurrence of [k] in [l] ([length l] when
    there is none). *)
Fixpoint index (k : K) (l : list K) : nat :=
  match l with
  | [] => 0
  | x :: t => if keqb k x then 0 else S (index k t)
  end.

(** [table[k] += 1] on an insertion-ordered table: a key met for the
    first time goes to the end. This is one step of
    [collections.Counter] and of the hash-table pass of [value_counts]
    and [groupby]. *)
Fixpoint bump (k : K) (acc : list (K * nat)) : list (K * nat) :=
  match acc with
  | [] => [(k, 1)]
  | (k', n) :: rest =>
      if keqb k k' then (k', S n) :: rest else (k', n) :: bump k rest
  end.

(** The table of counts of [l], keys in first-encountered order. *)
Definition count_first (l : list K) : list (K * nat) :=
  fold_left (fun acc k => bump k acc) l [].

(** [table.get(k)]. *)
Fixpoint get {V : Type} (k : K) (acc : list (K * V)) : option V :=
  match acc with
  | [] => None
  | (k', v) :: rest => if keqb k k' then Some v else get k rest
  end.

(** [Series.reindex(index, fill_value=fill)]. *)
Definition reindex {V : Type} (s : list (K * V)) (idx : list K) (fill : V)
  : list (K * V) :=
  map (fun k => (k, match get k s with Some v => v | None => fill end)) idx.

(** [drop_duplicates(subset=...)]: first occurrences, in order, judged on
    the key [f] of each row. *)
Fixpoint drop_duplicates_by {A : Type} (f : A -> K) (seen : list K)
         (l : list A) : list A :=
  match l with
  | [] => []
  | x :: t =>
      if isin (f x) seen then drop_duplicates_by f seen t
      else x :: drop_duplicates_by f (f x :: seen) t
  end.

(** [Series.unique()] and [Series.nunique()] of a column without missing
    values. *)
Definition unique (l : list K) : list K :=
  drop_duplicates_by (fun k => k) [] l.

Definition nunique (l : list K) : nat := List.length (unique l).

(** [Series.sum()] of a table of counts. *)
Definition total (acc : list (K * nat)) : nat := list_sum (map snd acc).

End Counting.

(** ** Sorting *)

Section Sorting.
Context {A : Type} (cnt : A -> nat).

(** [sort_values(ascending=False)] on the count [cnt]: the same rows, by
    descending count. The model sorts stably (a row goes in front of the
    first row whose count is not larger). That is the order of
    [Counter.most_common] and of [nlargest(keep="first")]; pandas' own
    [sort_values] and [value_counts] use a routine that is not stable, so
    a real run may order rows of equal count differently. What is stated
    about a table sorted by pandas is therefore stated for every order
    [sorted_desc_of] allows. *)
Fixpoint insert_desc (x : A) (l : list A) : list A :=
  match l with
  | [] => [x]
  | y :: t => if cnt x <? cnt y then y :: insert_desc x t else x :: l
  end.

Definition sort_values_desc (l : list A) : list A :=
  fold_right insert_desc [] l.

(** What [sort_values(ascending=False)] may return on the rows [tbl0],
    whatever the sorting routine does with equal counts: the same rows,
    by descending count. *)
Definition sorted_desc_of (tbl0 tbl : list A) : Prop :=
  Permutation tbl tbl0 /\ StronglySorted (fun a b => cnt b <= cnt a) tbl.

(** [head(n)]. *)
Definition head (n : nat) (l : list A) : list A := firstn n l.

(** [nlargest(n, column)] with the default [keep="first"]. *)
Definition nlargest (n : nat) (l : list A) : list A :=
  firstn n (sort_values_desc l).

End Sorting.

Section Grouping.
Context {K : Type} `{Key K} `{Ord K}.

Fixpoint insert_key {V : Type} (x : K * V) (l : list (K * V)) : list (K * V) :=
  match l with
  | [] => [x]
  | y :: t => if kleb (fst x) (fst y) then x :: l else y :: insert_key x t
  end.

(** Ascending order of the group keys. *)
Definition sort_index {V : Type} (l : list (K * V)) : list (K * V) :=
  fold_right insert_key [] l.

(** [groupby(key).size()] on a key column without missing values: one
    row per distinct key, keys ascending. *)
Definition groupby_size (l : list K) : list (K * nat) :=
  sort_index (count_first l).

(** [Series.value_counts()]: counts in first-encountered order, then
    sorted by descending count (rows of equal count: see
    [sort_values_desc]). *)
Definition value_counts (l : list K) : list (K * nat) :=
  sort_values_desc snd (count_first l).

End Grouping.

(** The order of the rows of a ranked table: a larger count comes first,
    and rows of equal count follow the order [before]. *)
Definition ranked {A : Type} (cnt : A -> nat) (before : A -> A -> Prop)
  : A -> A -> Prop :=
  fun a b => cnt b < cnt a \/ (cnt a = cnt b /\ before a b).

(** [a] is met before [b] in the column [l]. *)
Definition first_seen {K : Type} `{Key K} (l : list K) : K -> K -> Prop :=
  fun a b => index a l < index b l.

(** [tbl] is a table of most frequent keys of the column [col]: each row
    is a key of the column with its number of occurrences, no key comes
    twice, and a key that is left out occurs at most as often as each key
    that is listed. *)
Definition top_of {K : Type} `{Key K} (col : list K) (tbl : list (K * nat))
  : Prop :=
  Forall (fun row => In (fst row) col /\ snd row = occ (fst row) col) tbl
  /\ NoDup (map fst tbl)
  /\ forall v row, In v col -> In row tbl ->
                   In v (map fst tbl) \/ occ v col <= snd row.

(** [Counter.most_common(n)]. *)
Definition most_common {K : Type} (n : nat) (counter : list (K * nat))
  : list (K * nat) :=
  firstn n (sort_values_desc snd counter).

(** ** Floating-point results of pandas arithmetic *)

Inductive fval : Type :=
| Num (q : Q)
| FNaN
| FInf.

(** Element-wise true division of two non-negative integers: [x / 0] is
    [inf], [0 / 0] is [NaN]. *)
Definition div (a b : nat) : fval :=
  match b with
  | 0 => match a with 0 => FNaN | _ => FInf end
  | _ => Num (Z.of_nat a # Pos.of_nat b)
  end.

(** [fillna(d)]. *)
Definition fillna (d : Q) (x : fval) : fval :=
  match x with FNaN => Num d | _ => x end.

(** A float that is a number of the interval [[0, 1]]. *)
Definition unit_ratio (x : fval) : Prop :=
  match x with
  | Num q => (0 <= q /\ q <= 1)%Q
  | _ => False
  end.

(** ** Index labels and alignment *)

(** A row label: a position of a [RangeIndex] or a string of an object
    index. *)
Inductive rlabel : Type :=
| At (i : nat)
| Lab (s : string).

Definition rlabel_eqb (a b : rlabel) : bool :=
  match a, b with
  | At i, At j => Nat.eqb i j
  | Lab s, Lab t => String.eqb s t
  | _, _ => false
  end.

#[export] Instance Key_rlabel : Key rlabel := {| keqb := rlabel_eqb |}.

(** A column of a frame that carries the default [RangeIndex]. *)
Definition with_range_index {V : Type} (vals : list V) : list (rlabel * V) :=
  combine (map At (seq 0 (List.length vals))) vals.

(** A series indexed by strings. *)
Definition with_labels {V : Type} (s : list (string * V)) : list (rlabel * V) :=
  map (fun p => (Lab (fst p), snd p)) s.

(** [Series.replace(0, pd.NA)]. *)
Definition replace_zero_na (n : nat) : option nat :=
  match n with 0 => None | _ => Some n end.

(** [a / b] on two series: the operands are aligned on the union of their
    labels first; a label missing on one side, or a missing value, gives
    [NaN]. *)
Definition truediv_aligned (a : list (rlabel * nat))
           (b : list (rlabel * option nat)) : list (rlabel * fval) :=
  let idx := map fst a ++ filter (fun l => negb (isin l (map fst a))) (map fst b) in
  map (fun l => (l, match get l a, get l b with
                    | Some x, Some (Some y) => div x y
                    | _, _ => FNaN
                    end)) idx.

(** [frame[col] = series] on a frame with a [RangeIndex] of [n] rows: the
    series is reindexed to the frame's labels. *)
Definition setitem_aligned (n : nat) (s : list (rlabel * fval)) : list fval :=
  map (fun i => match get (At i) s with Some v => v | None => FNaN end) (seq 0 n).

(** ** Time buckets *)

(** [min] and [max] of a non-empty column. *)
Definition zmin (t0 : Z) (rest : list Z) : Z := fold_left Z.min rest t0.
Definition zmax (t0 : Z) (rest : list Z) : Z := fold_left Z.max rest t0.

(** [set_index(ts).resample(freq).size()]: rows without a timestamp are
    left out; the buckets run from the bucket of the earliest timestamp to
    the bucket of the latest one without a gap, empty buckets included. *)
Definition resample_size (freq : Z) (ts : list (option Z)) : list (Z * nat) :=
  match dropna_num ts with
  | [] => []
  | t0 :: rest =>
      let floor := fun t => (t / freq * freq)%Z in
      let lo := floor (zmin t0 rest) in
      let hi := floor (zmax t0 rest) in
      map (fun i =>
             let h := (lo + Z.of_nat i * freq)%Z in
             (h, List.length (filter (fun t => (floor t =? h)%Z) (t0 :: rest))))
          (seq 0 (S (Z.to_nat ((hi - lo) / freq))))
  end.

End Pd.

(** The kind of a metric card. *)
Inductive Kind : Type := Count | Percent | Float.

(** [class Metric(TypedDict)], without the free-text description. *)
Record Metric : Type := {
  label : string;
  value : Q;
  kind : Kind
}.

(** The guarded quotient [a / b if b else 0] of the two scripts. *)
Definition share (a b : nat) : Q :=
  if b =? 0 then 0%Q else (Z.of_nat a # Pos.of_nat b).

(** [x if x else 1]. *)
Definition or_one (x : nat) : nat := if x =? 0 then 1 else x.

(* ------------------------------------------------------------------ *)
(** * scan_records_dashboard.py *)
(* ------------------------------------------------------------------ *)

Module ScanRecords.
Import Pd.

(** One row as [pd.read_csv] hands it over (the timestamp as
    [pd.to_datetime(errors="coerce")] reads it). *)
Record Csv : Type := {
  csv_CreatedDateTimeUTC : option Z;
  csv_AccountId : cell;
  csv_Email : cell;
  csv_VIN : cell;
  csv_State : cell
}.

(** One row of the frame [load_data] returns. *)
Record Row : Type := {
  CreatedDateTimeUTC : option Z;
  AccountId : cell;
  Email : cell;
  VIN : cell;
  State : cell;
  AccountKey : cell
}.

(** [df["State"].astype(str).str.strip().str.upper()], then [pd.NA]
    wherever the text does not match [[A-Z]{2}]. *)
Definition normalize_state (c : cell) : cell :=
  let s := Py.upper (Py.strip (astype_str c)) in
  if Py.fullmatch_AZ2 s then Str s else NA.

(** [Series.ne("")] and [Series.where(cond, other)], element-wise. *)
Definition ne_empty (c : cell) : bool :=
  match c with Str s => Py.truthy s | _ => true end.

Definition where_ (cond : bool) (self other : cell) : cell :=
  if cond then self else other.

Definition load_row (r : Csv) : Row :=
  let account_id := Str (Py.strip (astype_str (csv_AccountId r))) in
  let email := Str (Py.strip (astype_str (csv_Email r))) in
  {| CreatedDateTimeUTC := csv_CreatedDateTimeUTC r;
     AccountId := account_id;
     Email := email;
     VIN := Str (Py.strip (astype_str (csv_VIN r)));
     State := normalize_state (csv_State r);
     AccountKey := where_ (ne_empty account_id) account_id email |}.

Definition load_data (csv : list Csv) : list Row := map load_row csv.

(** [df[col].isin(ids)] on one cell: a missing value is in no list of
    strings. *)
Definition cell_isin (c : cell) (ids : list string) : bool :=
  match c with Str s => isin s ids | _ => false end.

Section Summarize.
Variable df : list Row.

Definition total_scans : nat := List.length df.

Definition user_counts : list (string * nat) :=
  groupby_size (dropna (map AccountKey df)).

(** [user_counts[repeat_user_mask]] with [repeat_user_mask = user_counts > 1]. *)
Definition repeat_user_counts : list (string * nat) :=
  filter (fun p => 1 <? snd p) user_counts.

Definition repeat_user_ids : list string := map fst repeat_user_counts.

Definition repeat_user_scans : nat := total repeat_user_counts.
Definition repeat_user_scan_share : Q := share repeat_user_scans total_scans.

Definition unique_users : nat := List.length user_counts.
Definition repeat_users : nat :=
  List.length (filter (fun p => 1 <? snd p) user_counts).
Definition repeat_user_share : Q := share repeat_users unique_users.

Definition vin_counts : list (string * nat) :=
  value_counts (dropna (map VIN df)).
Definition unique_vins : nat := List.length vin_counts.
Definition repeat_vins : nat :=
  List.length (filter (fun p => 1 <? snd p) vin_counts).

Definition summary : list Metric :=
  [ {| label := "Total scans"; value := inject_Z (Z.of_nat total_scans);
       kind := Count |};
    {| label := "Repeat-user scans";
       value := inject_Z (Z.of_nat repeat_user_scans); kind := Count |};
    {| label := "Repeat-user scan share"; value := repeat_user_scan_share;
       kind := Percent |};
    {| label := "Unique users"; value := inject_Z (Z.of_nat unique_users);
       kind := Count |};
    {| label := "Repeat users"; value := inject_Z (Z.of_nat repeat_users);
       kind := Count |};
    {| label := "Repeat-user share"; value := repeat_user_share;
       kind := Percent |};
    {| label := "Unique VINs"; value := inject_Z (Z.of_nat unique_vins);
       kind := Count |};
    {| label := "VINs scanned multiple times";
       value := inject_Z (Z.of_nat repeat_vins); kind := Count |} ].

(** [df.dropna(subset=["State"])]. *)
Definition with_state (rows : list Row) : list Row :=
  filter (fun r => negb (isna (State r))) rows.

Definition state_counts : list (string * nat) :=
  sort_values_desc snd (groupby_size (dropna (map State (with_state df)))).

Definition repeat_state_counts : list (string * nat) :=
  groupby_size
    (dropna (map State
       (with_state (filter (fun r => cell_isin (AccountKey r) repeat_user_ids) df)))).

(** One row of the [state_summary] frame. *)
Record StateSummary : Type := {
  ss_state : string;
  ss_total_scans : nat;
  ss_repeat_scans : nat;
  ss_repeat_scan_share : fval;
  ss_scan_share : fval
}.

Definition state_summary : list StateSummary :=
  map (fun p =>
         let repeat_scans :=
           match get (fst p) repeat_state_counts with Some n => n | None => 0 end in
         {| ss_state := fst p;
            ss_total_scans := snd p;
            ss_repeat_scans := repeat_scans;
            ss_repeat_scan_share := div repeat_scans (snd p);
            ss_scan_share := div (snd p) (or_one total_scans) |})
      state_counts.

(** Repeat users by state (deduped by user within state). *)
Definition user_state : list Row :=
  drop_duplicates_by (fun r => (State r, AccountKey r)) [] (with_state df).

Definition repeat_users_by_state : list (string * nat) :=
  groupby_size
    (dropna (map State
       (filter (fun r => cell_isin (AccountKey r) repeat_user_ids) user_state))).

Definition unique_users_by_state : list (string * nat) :=
  groupby_size (dropna (map State user_state)).

(** The column [repeat_user_state["repeat_users"]], one value per row of
    [state_counts]. *)
Definition repeat_users_column : list nat :=
  map snd (reindex repeat_users_by_state (map fst state_counts) 0).

(** The column [repeat_user_share_in_state]. Its left operand is a column
    of the frame (labels [0..n-1]); its right operand is a series labelled
    by state code. *)
Definition repeat_user_share_in_state_column : list fval :=
  setitem_aligned (List.length state_counts)
    (map (fun p => (fst p, fillna 0 (snd p)))
       (truediv_aligned
          (with_range_index repeat_users_column)
          (with_labels
             (map (fun p => (fst p, replace_zero_na (snd p)))
                (reindex unique_users_by_state (map fst state_counts) 0))))).

(** One row of the [repeat_user_state] frame. *)
Record RepeatUserState : Type := {
  rs_state : string;
  rs_repeat_users : nat;
  rs_repeat_user_share_all_repeat : fval;
  rs_repeat_user_share_in_state : fval
}.

Definition repeat_user_state : list RepeatUserState :=
  map (fun t =>
         {| rs_state := fst (fst (fst t));
            rs_repeat_users := snd (fst t);
            rs_repeat_user_share_all_repeat := div (snd (fst t)) (or_one repeat_users);
            rs_repeat_user_share_in_state := snd t |})
      (combine (combine state_counts repeat_users_column)
               repeat_user_share_in_state_column).

End Summarize.

(** [build_figures]: the rows behind the "Top states by scans" bar chart. *)
Definition top_states (state_summary : list StateSummary) : list StateSummary :=
  nlargest ss_total_scans 10 state_summary.

(** ** Sample inputs *)

Definition sample_csv (account_id email vin state : cell) : Csv :=
  {| csv_CreatedDateTimeUTC := None;
     csv_AccountId := account_id;
     csv_Email := email;
     csv_VIN := vin;
     csv_State := state |}.

End ScanRecords.

(* ------------------------------------------------------------------ *)
(** * rs2_dr_dashboard.py *)
(* ------------------------------------------------------------------ *)

Module Rs2.
Import Pd.

(** One row as [pd.read_csv] hands it over. The timestamp is given as
    [pd.to_datetime(errors="coerce", utc=True)] reads it and the numeric
    columns as [pd.to_numeric(errors="coerce")] reads them: [None] stands
    for a missing or unreadable value. *)
Record Csv : Type := {
  csv_CreatedDateTimeUTC : option Z;
  csv_State : cell;
  csv_Year : option Q;
  csv_Mileage : option Q;
  csv_TotalAbsCodes : option Q;
  csv_TotalSrsCodes : option Q;
  csv_AccountId : cell;
  csv_VIN : cell;
  csv_Make : cell;
  csv_Model : cell;
  csv_MaintenancePartsCount : option Z;
  csv_PredictedPartsCount : option Z;
  csv_UsbProductId : option Z;
  csv_MIL_DTC : cell;
  csv_MIL_Part_Name : cell;
  csv_ABS_Part_Name : cell;
  csv_SRS_Part_Name : cell
}.

(** One row of the frame [load_data] returns. *)
Record Row : Type := {
  CreatedDateTimeUTC : option Z;
  State : cell;
  Year : option Q;
  Mileage : option Q;
  TotalAbsCodes : option Q;
  TotalSrsCodes : option Q;
  VIN : cell;
  MaintenancePartsCount : option Z;
  PredictedPartsCount : option Z;
  UsbProductId : option Z;
  MIL_DTC : cell;
  MIL_Part_Name : cell;
  ABS_Part_Name : cell;
  SRS_Part_Name : cell;
  UserId : cell;
  VehicleAge : option Q;
  Vehicle : cell
}.

Definition normalize_state (c : cell) : cell :=
  let s := Py.upper (Py.strip (astype_str c)) in
  if Py.fullmatch_AZ2 s then Str s else NA.

(** Stable user identifier: AccountId only for user-based metrics. *)
Definition user_id (account_id : cell) : cell :=
  let s := Py.strip (astype_str account_id) in
  if isin s ["" ; "nan"]%string then NA else Str s.

(** [2026 - Year], and [pd.NA] outside 1980..2026. *)
Definition vehicle_age (year : option Q) : option Q :=
  match year with
  | None => None
  | Some y =>
      if Qle_bool 1980 y && Qle_bool y 2026 then Some (2026 - y)%Q else None
  end.

(** [int(x)] on a finite number: truncation towards zero. *)
Definition int_of_Q (q : Q) : Z := Z.quot (Qnum q) (Zpos (Qden q)).

(** [str(n)] for an integer. *)
Definition str_of_Z (z : Z) : string := NilZero.string_of_int (Z.to_int z).
Definition str_of_nat (n : nat) : string := NilZero.string_of_uint (Nat.to_uint n).

Definition vehicle_label (year : option Q) (make model : cell) : cell :=
  match year with
  | None => PyNone
  | Some y =>
      if isna make || isna model then PyNone
      else
        let year := int_of_Q y in
        let make := Py.strip (astype_str make) in
        let model := Py.strip (astype_str model) in
        if negb (Py.truthy make) || negb (Py.truthy model) then PyNone
        else Str (str_of_Z year ++ " " ++ make ++ " " ++ model)%string
  end.

Definition load_row (r : Csv) : Row :=
  {| CreatedDateTimeUTC := csv_CreatedDateTimeUTC r;
     State := normalize_state (csv_State r);
     Year := csv_Year r;
     Mileage := csv_Mileage r;
     TotalAbsCodes := csv_TotalAbsCodes r;
     TotalSrsCodes := csv_TotalSrsCodes r;
     VIN := csv_VIN r;
     MaintenancePartsCount := csv_MaintenancePartsCount r;
     PredictedPartsCount := csv_PredictedPartsCount r;
     UsbProductId := csv_UsbProductId r;
     MIL_DTC := csv_MIL_DTC r;
     MIL_Part_Name := csv_MIL_Part_Name r;
     ABS_Part_Name := csv_ABS_Part_Name r;
     SRS_Part_Name := csv_SRS_Part_Name r;
     UserId := user_id (csv_AccountId r);
     VehicleAge := vehicle_age (csv_Year r);
     Vehicle := vehicle_label (csv_Year r) (csv_Make r) (csv_Model r) |}.

Definition load_data (csv : list Csv) : list Row := map load_row csv.

(** Split semicolon-separated part names and count occurrences. *)
Definition explode_parts (series : list cell) : list (string * nat) :=
  fold_left
    (fun counter raw =>
       fold_left
         (fun counter part =>
            let name := Py.strip part in
            if Py.truthy name then bump name counter else counter)
         (Py.split ";"%char raw) counter)
    (dropna series) [].

(** [", ".join(...)]. *)
Fixpoint join (sep : string) (l : list string) : string :=
  match l with
  | [] => ""
  | [x] => x
  | x :: t => x ++ sep ++ join sep t
  end%string.

(** One row of the frame [top_mil_dtc] returns. *)
Record MilDtc : Type := {
  md_MIL_DTC : string;
  md_Scans : nat;
  md_Top_Parts : string
}.

Definition top_mil_dtc (df : list Row) (limit : nat) : list MilDtc :=
  let dtc_counts := value_counts (map Py.strip (dropna (map MIL_DTC df))) in
  map (fun p =>
         let parts_counter :=
           explode_parts
             (map MIL_Part_Name
                (filter (fun r => String.eqb (Py.strip (astype_str (MIL_DTC r))) (fst p)) df)) in
         let parts_str :=
           match parts_counter with
           | [] => "n/a"%string
           | _ => join ", "
                    (map (fun q => (fst q ++ " (" ++ str_of_nat (snd q) ++ ")")%string)
                       (most_common 3 parts_counter))
           end in
         {| md_MIL_DTC := fst p; md_Scans := snd p; md_Top_Parts := parts_str |})
      (head limit dtc_counts).

(** One hour, in nanoseconds. *)
Definition HOUR : Z := 3600000000000.

Section Summarize.
Variable df : list Row.

Definition total_scans : nat := List.length df.

Definition safe_mean (series : list (option Q)) : Q :=
  match dropna_num series with
  | [] => 0%Q
  | cleaned =>
      (fold_right Qplus 0 cleaned / inject_Z (Z.of_nat (List.length cleaned)))%Q
  end.

Definition avg_age : Q := safe_mean (map VehicleAge df).
Definition avg_mileage : Q := safe_mean (map Mileage df).
Definition avg_abs_codes : Q := safe_mean (map TotalAbsCodes df).
Definition avg_srs_codes : Q := safe_mean (map TotalSrsCodes df).

(** [int(column.sum())]; the sum skips missing values. The sum is the
    exact one: it is the value of the code as long as it stays within the
    range of the column's machine type. *)
Definition column_sum (col : list (option Z)) : Z :=
  fold_right Z.add 0%Z (dropna_num col).

Definition maintenance_parts_total : Z := column_sum (map MaintenancePartsCount df).
Definition predicted_parts_total : Z := column_sum (map PredictedPartsCount df).
Definition unique_vins : nat := nunique (dropna (map VIN df)).

Definition user_counts : list (string * nat) :=
  value_counts (dropna (map UserId df)).
Definition total_scanned_users : nat := List.length user_counts.

(** Repeat users: AccountId that scanned the same VIN 2+ times. *)
Definition repeat_pairs : list (string * string * nat) :=
  groupby_size
    (flat_map (fun r => match UserId r, VIN r with
                        | Str u, Str v => [(u, v)]
                        | _, _ => []
                        end) df).

Definition repeat_accounts : list string :=
  unique (map (fun p => fst (fst p)) (filter (fun p => 2 <=? snd p) repeat_pairs)).

Definition repeat_user_count : nat := List.length repeat_accounts.
Definition repeat_user_share : Q := share repeat_user_count total_scanned_users.

Definition cards : list Metric :=
  [ {| label := "Total scans"; value := inject_Z (Z.of_nat total_scans);
       kind := Count |};
    {| label := "Total scanned users";
       value := inject_Z (Z.of_nat total_scanned_users); kind := Count |};
    {| label := "Average vehicle age"; value := avg_age; kind := Float |};
    {| label := "Average mileage"; value := avg_mileage; kind := Float |};
    {| label := "Average ABS code count"; value := avg_abs_codes; kind := Float |};
    {| label := "Average SRS code count"; value := avg_srs_codes; kind := Float |};
    {| label := "Maintenance parts (total)";
       value := inject_Z maintenance_parts_total; kind := Count |};
    {| label := "Predicted parts (total)";
       value := inject_Z predicted_parts_total; kind := Count |};
    {| label := "Unique VINs"; value := inject_Z (Z.of_nat unique_vins);
       kind := Count |};
    {| label := "Repeat users"; value := inject_Z (Z.of_nat repeat_user_count);
       kind := Count |};
    {| label := "Repeat user share"; value := repeat_user_share;
       kind := Percent |} ].

Definition top_vehicles : list (string * nat) :=
  head 10 (value_counts (dropna (map Vehicle df))).

Definition top_usb : list (Z * nat) :=
  head 5 (value_counts (dropna_num (map UsbProductId df))).

Definition abs_parts : list (string * nat) :=
  most_common 10 (explode_parts (map ABS_Part_Name df)).

Definition srs_parts : list (string * nat) :=
  most_common 10 (explode_parts (map SRS_Part_Name df)).

Definition mil_dtc_df : list MilDtc := top_mil_dtc df 10.

Definition state_counts : list (string * nat) :=
  sort_values_desc snd
    (groupby_size (dropna (map State (filter (fun r => negb (isna (State r))) df)))).

Definition scans_by_state : list (string * nat) := state_counts.

(** [chart_data["top_states"]]. *)
Definition top_states : list (string * nat) := head 10 scans_by_state.

Definition hourly : list (Z * nat) :=
  if existsb (fun t => match t with Some _ => true | None => false end)
             (map CreatedDateTimeUTC df)
  then
    let hourly := resample_size HOUR (map CreatedDateTimeUTC df) in
    match map fst hourly with
    | [] => hourly
    | h0 :: hs =>
        let max_time := zmax h0 hs in
        let window_start := (max_time - 23 * HOUR)%Z in
        filter (fun p => (window_start <=? fst p)%Z) hourly
    end
  else [].

(** [groupby("State")["UserId"].nunique()] over the rows of repeat
    accounts that have a state. *)
Definition repeat_users_by_state : list (string * nat) :=
  let rows :=
    filter (fun r => negb (isna (State r)))
      (filter (fun r => match UserId r with
                        | Str u => isin u repeat_accounts
                        | _ => false
                        end) df) in
  map (fun p =>
         (fst p,
          nunique (dropna (map UserId
            (filter (fun r => keqb (State r) (Str (fst p))) rows)))))
      (groupby_size (dropna (map State rows))).

End Summarize.

(** ** Sample inputs *)

(** A CSV row that carries an account, a VIN, a state and a timestamp and
    nothing else. *)
Definition sample_csv (account_id vin state : cell) (ts : option Z) : Csv :=
  {| csv_CreatedDateTimeUTC := ts;
     csv_State := state;
     csv_Year := None;
     csv_Mileage := None;
     csv_TotalAbsCodes := None;
     csv_TotalSrsCodes := None;
     csv_AccountId := account_id;
     csv_VIN := vin;
     csv_Make := NaN;
     csv_Model := NaN;
     csv_MaintenancePartsCount := None;
     csv_PredictedPartsCount := None;
     csv_UsbProductId := None;
     csv_MIL_DTC := NaN;
     csv_MIL_Part_Name := NaN;
     csv_ABS_Part_Name := NaN;
     csv_SRS_Part_Name := NaN |}.

(** A CSV row that carries a diagnostic code and its part names. *)
Definition sample_dtc_csv (dtc parts : cell) : Csv :=
  {| csv_CreatedDateTimeUTC := None;
     csv_State := NaN;
     csv_Year := None;
     csv_Mileage := None;
     csv_TotalAbsCodes := None;
     csv_TotalSrsCodes := None;
     csv_AccountId := NaN;
     csv_VIN := NaN;
     csv_Make := NaN;
     csv_Model := NaN;
     csv_MaintenancePartsCount := None;
     csv_PredictedPartsCount := None;
     csv_UsbProductId := None;
     csv_MIL_DTC := dtc;
     csv_MIL_Part_Name := parts;
     csv_ABS_Part_Name := NaN;
     csv_SRS_Part_Name := NaN |}.

End Rs2.

(** The tokens of a column of semicolon-separated lists, as the
    specification words it: split each present cell on [;], trim each
    piece, drop the empty ones. *)
Definition spec_tokens (series : list Pd.cell) : list string :=
  flat_map (fun raw => filter Py.truthy (map Py.strip (Py.split ";"%char raw)))
           (Pd.dropna series).

(* ================================================================== *)
(** * Properties *)
(* ================================================================== *)

Import Pd.

(** ** Strings *)

Section PyFacts.
Local Open Scope N_scope.

Lemma is_AZ_not_space c : Py.is_AZ c = true -> Py.is_space c = false.
Proof.
  unfold Py.is_AZ, Py.is_space. intros H.
  apply andb_true_iff in H as [H1 H2].
  apply N.leb_le in H1. apply N.leb_le in H2.
  repeat rewrite orb_false_iff. repeat split.
  - apply andb_false_iff. right. apply N.leb_gt. lia.
  - apply andb_false_iff. right. apply N.leb_gt. lia.
  - apply N.eqb_neq. lia.
  - apply N.eqb_neq. lia.
Qed.

Lemma is_AZ_upper c : Py.is_AZ c = true -> Py.upper_char c = String c EmptyString.
Proof.
  unfold Py.is_AZ, Py.upper_char. intros H.
  apply andb_true_iff in H as [H1 H2].
  apply N.leb_le in H1. apply N.leb_le in H2.
  replace (97 <=? N_of_ascii c) with false by (symmetry; apply N.leb_gt; lia).
  replace (N_of_ascii c =? 223) with false by (symmetry; apply N.eqb_neq; lia).
  replace (224 <=? N_of_ascii c) with false by (symmetry; apply N.leb_gt; lia).
  reflexivity.
Qed.

Lemma fullmatch_AZ2_inv s :
  Py.fullmatch_AZ2 s = true ->
  exists a b, s = String a (String b EmptyString)
              /\ Py.is_AZ a = true /\ Py.is_AZ b = true.
Proof.
  destruct s as [|a [|b [|c s]]]; simpl; try discriminate.
  intros H. apply andb_true_iff in H. exists a, b. tauto.
Qed.

(** A string that already matches [[A-Z]{2}] is a fixed point of
  [Py.strip] and of [Py.upper]. *)
Lemma strip_AZ2 s : Py.fullmatch_AZ2 s = true -> Py.strip s = s.
Proof.
  intros H. destruct (fullmatch_AZ2_inv _ H) as (a & b & -> & Ha & Hb).
  unfold Py.strip. simpl.
  rewrite (is_AZ_not_space _ Ha). simpl.
  rewrite (is_AZ_not_space _ Hb). reflexivity.
Qed.

Lemma upper_AZ2 s : Py.fullmatch_AZ2 s = true -> Py.upper s = s.
Proof.
  intros H. destruct (fullmatch_AZ2_inv _ H) as (a & b & -> & Ha & Hb).
  simpl. rewrite (is_AZ_upper _ Ha), (is_AZ_upper _ Hb). reflexivity.
Qed.

End PyFacts.

(** ** Keys *)

#[export] Instance KeyLaws_string : Pd.KeyLaws string.
Proof. constructor. exact String.eqb_spec. Qed.

#[export] Instance KeyLaws_Z : Pd.KeyLaws Z.
Proof. constructor. exact Z.eqb_spec. Qed.

#[export] Instance KeyLaws_cell : Pd.KeyLaws Pd.cell.
Proof.
  constructor. intros a b.
  destruct a, b; simpl; try (constructor; congruence).
  destruct (String.eqb_spec s s0); constructor; congruence.
Qed.

#[export] Instance KeyLaws_rlabel : Pd.KeyLaws Pd.rlabel.
Proof.
  constructor. intros a b.
  destruct a as [i|s], b as [j|t]; simpl; try (constructor; congruence).
  - destruct (Nat.eqb_spec i j); constructor; congruence.
  - destruct (String.eqb_spec s t); constructor; congruence.
Qed.

#[export] Instance KeyLaws_pair {A B} `{Pd.KeyLaws A} `{Pd.KeyLaws B} :
  Pd.KeyLaws (A * B).
Proof.
  constructor. intros [a b] [a' b']. simpl.
  destruct (Pd.keqb_spec a a'), (Pd.keqb_spec b b'); simpl;
    constructor; congruence.
Qed.

Section KeyFacts.
Context {K : Type} `{KeyLaws K}.

Lemma keqb_refl (a : K) : keqb a a = true.
Proof. destruct (keqb_spec a a); congruence. Qed.

Lemma keqb_eq (a b : K) : keqb a b = true <-> a = b.
Proof. destruct (keqb_spec a b); split; congruence. Qed.

Lemma keqb_neq (a b : K) : keqb a b = false <-> a <> b.
Proof. destruct (keqb_spec a b); split; congruence. Qed.

Lemma isin_In (k : K) l : isin k l = true <-> In k l.
Proof.
  unfold isin. rewrite existsb_exists. split.
  - intros (x & Hx & E). apply keqb_eq in E. now subst.
  - intros Hk. exists k. split; [assumption | apply keqb_refl].
Qed.

Lemma isin_false (k : K) l : isin k l = false <-> ~ In k l.
Proof.
  rewrite <- isin_In. destruct (isin k l); split; congruence.
Qed.

(** *** Occurrences *)

Lemma occ_nil (k : K) : occ k [] = 0.
Proof. reflexivity. Qed.

Lemma occ_app (k : K) l1 l2 : occ k (l1 ++ l2) = occ k l1 + occ k l2.
Proof. unfold occ. now rewrite filter_app, length_app. Qed.

Lemma occ_cons (k x : K) l :
  occ k (x :: l) = (if keqb k x then 1 else 0) + occ k l.
Proof. unfold occ. simpl. now destruct (keqb k x). Qed.

Lemma occ_pos (k : K) l : 0 < occ k l <-> In k l.
Proof.
  induction l as [|x l IH].
  - simpl. unfold occ. simpl. split; [lia | tauto].
  - rewrite occ_cons. simpl. destruct (keqb_spec k x) as [->|N].
    + split; [auto | lia].
    + simpl. rewrite IH. split; [auto | intros [E|I]; congruence].
Qed.

Lemma occ_le_length (k : K) l : occ k l <= List.length l.
Proof. unfold occ. apply filter_length_le. Qed.

(** *** One increment *)

Lemma get_bump (k k' : K) acc :
  get k' (bump k acc) =
  if keqb k' k
  then Some (S (match get k acc with Some n => n | None => 0 end))
  else get k' acc.
Proof.
  induction acc as [|[x n] acc IH]; simpl.
  - destruct (keqb k' k); reflexivity.
  - destruct (keqb_spec k x) as [->|N]; simpl.
    + destruct (keqb_spec k' x); reflexivity.
    + rewrite IH. destruct (keqb_spec k' k) as [->|N'].
      * destruct (keqb_spec k x); [congruence | reflexivity].
      * reflexivity.
Qed.

Lemma keys_bump (k : K) acc :
  map fst (bump k acc) =
  if isin k (map fst acc) then map fst acc else map fst acc ++ [k].
Proof.
  induction acc as [|[x n] acc IH]; simpl.
  - reflexivity.
  - destruct (keqb k x); simpl; [reflexivity|].
    rewrite IH. now destruct (isin k (map fst acc)).
Qed.

Lemma total_bump (k : K) acc : total (bump k acc) = S (total acc).
Proof.
  unfold total. induction acc as [|[x n] acc IH]; simpl.
  - reflexivity.
  - destruct (keqb k x); simpl; [reflexivity | rewrite IH; lia].
Qed.

(** *** The table of first encounters *)

Lemma count_first_snoc (l : list K) x :
  count_first (l ++ [x]) = bump x (count_first l).
Proof. unfold count_first. now rewrite fold_left_app. Qed.

Lemma get_count_first (k : K) l :
  get k (count_first l) = if occ k l =? 0 then None else Some (occ k l).
Proof.
  induction l as [|x l IH] using rev_ind.
  - reflexivity.
  - rewrite count_first_snoc, get_bump, occ_app, occ_cons.
    rewrite occ_nil.
    destruct (keqb_spec k x) as [->|N].
    + rewrite IH. destruct (Nat.eqb_spec (occ x l) 0) as [E|E].
      * rewrite E. reflexivity.
      * destruct (Nat.eqb_spec (occ x l + (1 + 0)) 0); [lia|].
        f_equal. lia.
    + rewrite IH. replace (occ k l + (0 + 0)) with (occ k l) by lia.
      reflexivity.
Qed.

Lemma keys_count_first_In (k : K) l :
  In k (map fst (count_first l)) <-> In k l.
Proof.
  induction l as [|x l IH] using rev_ind.
  - simpl. tauto.
  - rewrite count_first_snoc, keys_bump, in_app_iff. simpl.
    destruct (isin x (map fst (count_first l))) eqn:E.
    + apply isin_In in E. rewrite IH.
      split; [auto | intros [I|[<-|[]]]; [assumption | now apply IH]].
    + rewrite in_app_iff, IH. simpl. tauto.
Qed.

Lemma keys_count_first_NoDup (l : list K) :
  NoDup (map fst (count_first l)).
Proof.
  induction l as [|x l IH] using rev_ind.
  - constructor.
  - rewrite count_first_snoc, keys_bump.
    destruct (isin x (map fst (count_first l))) eqn:E; [assumption|].
    apply isin_false in E.
    apply NoDup_app; try assumption.
    + repeat constructor. simpl. tauto.
    + intros a Ha [<-|[]]. contradiction.
Qed.

Lemma total_count_first (l : list K) : total (count_first l) = List.length l.
Proof.
  induction l as [|x l IH] using rev_ind.
  - reflexivity.
  - rewrite count_first_snoc, total_bump, IH, length_app. simpl. lia.
Qed.

(** *** Tables with distinct keys *)

Lemma get_In {V : Type} (k : K) (v : V) acc :
  NoDup (map fst acc) -> (get k acc = Some v <-> In (k, v) acc).
Proof.
  induction acc as [|[x w] acc IH]; simpl; intros ND.
  - split; [discriminate | tauto].
  - inversion ND as [|? ? Hx ND']; subst.
    destruct (keqb_spec k x) as [->|N].
    + split.
      * intros [= ->]. now left.
      * intros [[= ->]|I]; [reflexivity|].
        exfalso. apply Hx. now apply (in_map fst) in I.
    + rewrite (IH ND'). split; [auto | intros [[= -> ->]|I]; congruence].
Qed.

Lemma get_None {V : Type} (k : K) (acc : list (K * V)) :
  get k acc = None <-> ~ In k (map fst acc).
Proof.
  induction acc as [|[x w] acc IH]; simpl.
  - tauto.
  - destruct (keqb_spec k x) as [->|N].
    + split; [discriminate | tauto].
    + rewrite IH. split; [intros A [E|I]; congruence | tauto].
Qed.

Lemma In_count_first (k : K) n l :
  In (k, n) (count_first l) <-> n = occ k l /\ 0 < n.
Proof.
  rewrite <- (get_In k n (count_first l) (keys_count_first_NoDup l)), get_count_first.
  destruct (Nat.eqb_spec (occ k l) 0) as [E|E].
  - split; [discriminate | lia].
  - split; [intros [= <-]; lia | intros [-> _]; reflexivity].
Qed.

End KeyFacts.

(** ** Sorting keeps the rows *)

Section SortFacts.
Context {A : Type} (cnt : A -> nat).

Lemma insert_desc_perm (x : A) l : Permutation (insert_desc cnt x l) (x :: l).
Proof.
  induction l as [|y l IH]; simpl.
  - reflexivity.
  - destruct (cnt x <? cnt y).
    + rewrite IH. apply perm_swap.
    + reflexivity.
Qed.

Lemma sort_values_desc_perm (l : list A) : Permutation (sort_values_desc cnt l) l.
Proof.
  induction l as [|x l IH]; simpl.
  - reflexivity.
  - rewrite insert_desc_perm. now constructor.
Qed.

Lemma head_length (n : nat) (l : list A) : List.length (head n l) <= n.
Proof. unfold head. apply firstn_le_length. Qed.

Lemma nlargest_length (n : nat) (l : list A) : List.length (nlargest cnt n l) <= n.
Proof. unfold nlargest. apply firstn_le_length. Qed.

End SortFacts.

Section GroupFacts.
Context {K : Type} `{KeyLaws K} `{Ord K}.

Lemma insert_key_perm {V} (x : K * V) l : Permutation (insert_key x l) (x :: l).
Proof.
  induction l as [|y l IH]; simpl.
  - reflexivity.
  - destruct (kleb (fst x) (fst y)).
    + reflexivity.
    + rewrite IH. apply perm_swap.
Qed.

Lemma sort_index_perm {V} (l : list (K * V)) : Permutation (sort_index l) l.
Proof.
  induction l as [|x l IH]; simpl.
  - reflexivity.
  - rewrite insert_key_perm. now constructor.
Qed.

Lemma groupby_size_perm (l : list K) : Permutation (groupby_size l) (count_first l).
Proof. apply sort_index_perm. Qed.

Lemma value_counts_perm (l : list K) : Permutation (value_counts l) (count_first l).
Proof. apply sort_values_desc_perm. Qed.

End GroupFacts.

(** ** Frequency tables up to the order of their rows *)

Section TableFacts.
Context {K : Type} `{KeyLaws K}.
Variable l : list K.
Variable acc : list (K * nat).
Hypothesis Hperm : Permutation acc (count_first l).

Lemma table_In (k : K) n : In (k, n) acc <-> n = occ k l /\ 0 < n.
Proof.
  rewrite <- In_count_first. split; apply Permutation_in;
    [assumption | now symmetry].
Qed.

Lemma table_NoDup : NoDup (map fst acc).
Proof.
  eapply Permutation_NoDup.
  - symmetry. apply Permutation_map. exact Hperm.
  - apply keys_count_first_NoDup.
Qed.

Lemma table_keys (k : K) : In k (map fst acc) <-> In k l.
Proof.
  rewrite <- (keys_count_first_In k l). split; apply Permutation_in;
    [ | symmetry ]; apply Permutation_map; assumption.
Qed.

Lemma table_total : total acc = List.length l.
Proof.
  rewrite <- total_count_first. unfold total.
  apply Permutation_list_sum, Permutation_map. exact Hperm.
Qed.

Lemma table_get (k : K) :
  get k acc = if occ k l =? 0 then None else Some (occ k l).
Proof.
  destruct (Nat.eqb_spec (occ k l) 0) as [E|E].
  - apply get_None. rewrite table_keys, <- occ_pos. lia.
  - apply get_In; [apply table_NoDup|]. apply table_In. lia.
Qed.

Lemma table_length : List.length acc = List.length (count_first l).
Proof. now apply Permutation_length. Qed.

End TableFacts.


(** ** First occurrences *)

Section UniqueFacts.
Context {K : Type} `{KeyLaws K}.

Lemma ddb_In {A} (f : A -> K) l : forall seen x,
  In x (drop_duplicates_by f seen l) -> In x l /\ ~ In (f x) seen.
Proof.
  induction l as [|y l IH]; simpl; intros seen x Hx.
  - contradiction.
  - destruct (isin (f y) seen) eqn:E.
    + destruct (IH _ _ Hx). auto.
    + destruct Hx as [->|Hx].
      * split; [auto | now apply isin_false].
      * destruct (IH _ _ Hx) as [I N]. split; [auto|].
        intros I'. apply N. now right.
Qed.

Lemma ddb_NoDup {A} (f : A -> K) l : forall seen,
  NoDup (map f (drop_duplicates_by f seen l)).
Proof.
  induction l as [|y l IH]; simpl; intros seen.
  - constructor.
  - destruct (isin (f y) seen); [apply IH|].
    simpl. constructor; [|apply IH].
    intros I. apply in_map_iff in I as (z & E & I).
    apply ddb_In in I as [_ N]. apply N. left. now symmetry.
Qed.

Lemma ddb_complete {A} (f : A -> K) l : forall seen x,
  In x l -> ~ In (f x) seen ->
  In (f x) (map f (drop_duplicates_by f seen l)).
Proof.
  induction l as [|y l IH]; simpl; intros seen x Hx N.
  - contradiction.
  - destruct (isin (f y) seen) eqn:E.
    + destruct Hx as [->|Hx].
      * apply isin_In in E. contradiction.
      * now apply IH.
    + simpl. destruct (keqb_spec (f y) (f x)) as [Eq|Ne]; [now left|].
      right. destruct Hx as [->|Hx]; [congruence|].
      apply IH; [assumption|]. intros [E'|I]; [congruence | contradiction].
Qed.

Lemma unique_NoDup (l : list K) : NoDup (unique l).
Proof.
  unfold unique. rewrite <- (map_id (drop_duplicates_by _ _ _)).
  apply ddb_NoDup.
Qed.

Lemma unique_In (k : K) l : In k (unique l) <-> In k l.
Proof.
  unfold unique. split.
  - intros I. now apply ddb_In in I.
  - intros I. rewrite <- (map_id (drop_duplicates_by _ _ _)).
    apply (ddb_complete (fun k => k)); [assumption | tauto].
Qed.

(** The number of rows of a frequency table is the number of distinct
    keys. *)
Lemma count_first_length (l : list K) :
  List.length (count_first l) = nunique l.
Proof.
  unfold nunique. rewrite <- (length_map fst).
  apply Permutation_length, NoDup_Permutation.
  - apply keys_count_first_NoDup.
  - apply unique_NoDup.
  - intros k. now rewrite keys_count_first_In, unique_In.
Qed.

Lemma nunique_incl (l1 l2 : list K) :
  incl l1 l2 -> nunique l1 <= nunique l2.
Proof.
  intros I. unfold nunique. apply NoDup_incl_length.
  - apply unique_NoDup.
  - intros k. rewrite !unique_In. apply I.
Qed.

End UniqueFacts.

Section UniqueRemove.
Context {K : Type} `{KeyLaws K}.

(** Setting one key aside lowers the number of distinct keys by one. *)
Lemma nunique_remove (k : K) l :
  In k l -> nunique l = S (nunique (filter (fun x => negb (keqb x k)) l)).
Proof.
  intros I. unfold nunique.
  change (S (List.length (unique (filter (fun x => negb (keqb x k)) l))))
    with (List.length (k :: unique (filter (fun x => negb (keqb x k)) l))).
  apply Permutation_length, NoDup_Permutation.
  - apply unique_NoDup.
  - constructor; [|apply unique_NoDup].
    rewrite unique_In, filter_In, keqb_refl. simpl. intros [_ ?]. discriminate.
  - intros x. simpl. rewrite !unique_In, filter_In, negb_true_iff, keqb_neq.
    destruct (keqb_spec x k) as [->|N]; split; auto.
    intros [E|[? ?]]; [now subst | assumption].
Qed.

End UniqueRemove.

(** ** Normalisation of state codes *)

Lemma normalize_state_fixed (s : string) :
  Py.fullmatch_AZ2 s = true ->
  Py.upper (Py.strip (astype_str (Str s))) = s.
Proof.
  intros M. simpl. now rewrite (strip_AZ2 _ M), (upper_AZ2 _ M).
Qed.

Lemma scan_records_normalize_twice (c : cell) :
  ScanRecords.normalize_state (ScanRecords.normalize_state c)
  = ScanRecords.normalize_state c.
Proof.
  unfold ScanRecords.normalize_state at 2 3.
  destruct (Py.fullmatch_AZ2 (Py.upper (Py.strip (astype_str c)))) eqn:M.
  - unfold ScanRecords.normalize_state.
    rewrite (normalize_state_fixed _ M), M. reflexivity.
  - reflexivity.
Qed.

Lemma rs2_normalize_twice (c : cell) :
  Rs2.normalize_state (Rs2.normalize_state c) = Rs2.normalize_state c.
Proof.
  unfold Rs2.normalize_state at 2 3.
  destruct (Py.fullmatch_AZ2 (Py.upper (Py.strip (astype_str c)))) eqn:M.
  - unfold Rs2.normalize_state.
    rewrite (normalize_state_fixed _ M), M. reflexivity.
  - reflexivity.
Qed.

(** A normalised state is a two-letter code or [pd.NA]. *)
Lemma normalize_state_shape (c : cell) :
  match Rs2.normalize_state c with
  | Str s => Py.fullmatch_AZ2 s = true
  | NA => True
  | _ => False
  end.
Proof.
  unfold Rs2.normalize_state.
  destruct (Py.fullmatch_AZ2 (Py.upper (Py.strip (astype_str c)))) eqn:M;
    [exact M | exact I].
Qed.

(** C6. State-code normalisation (trim, upper-case, null whatever is not
    exactly two upper-case letters) is idempotent in both scripts: run a
    second time on an already normalised State column, it leaves every
    value as it is. *)
Theorem state_normalization_idempotent (col : list cell) :
  map ScanRecords.normalize_state (map ScanRecords.normalize_state col)
  = map ScanRecords.normalize_state col
  /\ map Rs2.normalize_state (map Rs2.normalize_state col)
     = map Rs2.normalize_state col.
Proof.
  split; rewrite map_map; apply map_ext; intros c.
  - apply scan_records_normalize_twice.
  - apply rs2_normalize_twice.
Qed.

(** ** Multi-value explosion *)

Lemma fold_left_flat_map {A B C} (g : C -> B -> C) (h : A -> list B) l :
  forall acc,
    fold_left (fun c a => fold_left g (h a) c) l acc
    = fold_left g (flat_map h l) acc.
Proof.
  induction l as [|a l IH]; simpl; intros acc.
  - reflexivity.
  - now rewrite IH, fold_left_app.
Qed.

Lemma fold_left_strip_filter (parts : list string) :
  forall counter : list (string * nat),
    fold_left
      (fun counter part =>
         let name := Py.strip part in
         if Py.truthy name then bump name counter else counter)
      parts counter
    = fold_left (fun acc k => bump k acc)
                (filter Py.truthy (map Py.strip parts)) counter.
Proof.
  induction parts as [|p parts IH]; simpl; intros counter.
  - reflexivity.
  - rewrite IH. now destruct (Py.truthy (Py.strip p)).
Qed.

(** [explode_parts] is the frequency table of the tokens. *)
Lemma explode_parts_count_first (series : list cell) :
  Rs2.explode_parts series = count_first (spec_tokens series).
Proof.
  unfold Rs2.explode_parts, spec_tokens, count_first.
  rewrite <- fold_left_flat_map.
  generalize (@nil (string * nat)) as acc. generalize (dropna series) as l.
  induction l as [|raw l IH]; simpl; intros acc.
  - reflexivity.
  - rewrite fold_left_strip_filter. apply IH.
Qed.

(** C7. [explode_parts] splits each non-null cell on [;], trims each
    token, drops the empty ones and keeps one count per distinct token
    over all rows: the counter has one entry per token, no key twice, and
    the entry of a token is the number of its occurrences. The single
    cell ["A; B ;B"] gives exactly [{A: 1, B: 2}]. *)
Theorem explode_parts_counts (series : list cell) (t : string) :
  get t (Rs2.explode_parts series)
  = (if occ t (spec_tokens series) =? 0 then None
     else Some (occ t (spec_tokens series)))
  /\ NoDup (map fst (Rs2.explode_parts series))
  /\ Rs2.explode_parts [Str "A; B ;B"] = [("A", 1); ("B", 2)]%string.
Proof.
  rewrite explode_parts_count_first. split; [|split].
  - apply get_count_first.
  - apply keys_count_first_NoDup.
  - reflexivity.
Qed.

(** ** The user key *)

(** C4. In [scan_records_dashboard], a row whose AccountId is missing does
    not get its Email as key: [astype(str)] has turned the missing value
    into the text ["nan"], which is not empty, so ["nan"] is the key. Only
    an AccountId that is blank after trimming falls back to the Email. In
    [rs2_dr_dashboard] the key is the trimmed AccountId, nulled when it is
    empty or missing. *)
Theorem account_key_of_missing_account_id :
  let missing_id :=
    {| ScanRecords.csv_CreatedDateTimeUTC := None;
       ScanRecords.csv_AccountId := NaN;
       ScanRecords.csv_Email := Str "a@x.com";
       ScanRecords.csv_VIN := Str "V1";
       ScanRecords.csv_State := Str "CA" |} in
  let blank_id :=
    {| ScanRecords.csv_CreatedDateTimeUTC := None;
       ScanRecords.csv_AccountId := Str "  ";
       ScanRecords.csv_Email := Str "a@x.com";
       ScanRecords.csv_VIN := Str "V1";
       ScanRecords.csv_State := Str "CA" |} in
  ScanRecords.AccountKey (ScanRecords.load_row missing_id) = Str "nan"
  /\ ScanRecords.Email (ScanRecords.load_row missing_id) = Str "a@x.com"
  /\ ScanRecords.AccountKey (ScanRecords.load_row blank_id) = Str "a@x.com"
  /\ Rs2.user_id NaN = NA
  /\ Rs2.user_id (Str "  ") = NA
  /\ Rs2.user_id (Str " 42 ") = Str "42".
Proof. repeat split. Qed.

(** ** Missing VINs in scan_records_dashboard *)

Lemma scan_records_vin_column (csv : list ScanRecords.Csv) :
  dropna (map ScanRecords.VIN (ScanRecords.load_data csv))
  = map (fun r => Py.strip (astype_str (ScanRecords.csv_VIN r))) csv.
Proof.
  induction csv as [|r csv IH]; simpl.
  - reflexivity.
  - now rewrite IH.
Qed.

Lemma occ_nan_missing (csv : list ScanRecords.Csv) :
  List.length (filter (fun r => keqb (ScanRecords.csv_VIN r) NaN) csv)
  <= occ "nan"%string
         (map (fun r => Py.strip (astype_str (ScanRecords.csv_VIN r))) csv).
Proof.
  induction csv as [|r csv IH].
  - apply Nat.le_0_l.
  - cbn [filter map]. rewrite occ_cons.
    destruct (ScanRecords.csv_VIN r) as [s| | |].
    + change (keqb (Str s) NaN) with false.
      destruct (keqb "nan"%string (Py.strip (astype_str (Str s)))); lia.
    + change (Py.strip (astype_str NaN)) with "nan"%string.
      change (keqb NaN NaN) with true.
      change (keqb "nan"%string "nan"%string) with true.
      cbv iota. cbn [List.length]. lia.
    + change (keqb NA NaN) with false.
      destruct (keqb "nan"%string (Py.strip (astype_str NA))); lia.
    + change (keqb PyNone NaN) with false.
      destruct (keqb "nan"%string (Py.strip (astype_str PyNone))); lia.
Qed.

(** C10. In [scan_records_dashboard] the VIN column is converted to text
    before it is trimmed, so every row with a missing VIN carries the VIN
    ["nan"], and [dropna] on the column removes no row. When at least one
    VIN is missing, ["nan"] is a row of [vin_counts] that counts at least
    all the missing VINs, the "Unique VINs" card is one more than the
    number of distinct VINs other than ["nan"], and with two or more
    missing VINs ["nan"] is among the VINs scanned multiple times. *)
Theorem missing_vin_counted_as_nan (csv : list ScanRecords.Csv)
  (Hmissing : exists r, In r csv /\ ScanRecords.csv_VIN r = NaN) :
  let df := ScanRecords.load_data csv in
  let missing :=
    List.length (filter (fun r => keqb (ScanRecords.csv_VIN r) NaN) csv) in
  (forall r, ScanRecords.csv_VIN r = NaN ->
             ScanRecords.VIN (ScanRecords.load_row r) = Str "nan")
  /\ List.length (dropna (map ScanRecords.VIN df)) = List.length df
  /\ (exists n, In ("nan"%string, n) (ScanRecords.vin_counts df) /\ missing <= n)
  /\ ScanRecords.unique_vins df
     = S (nunique (filter (fun v => negb (keqb v "nan"%string))
                          (dropna (map ScanRecords.VIN df))))
  /\ (2 <= missing ->
      In "nan"%string
         (map fst (filter (fun p => 1 <? snd p) (ScanRecords.vin_counts df)))
      /\ 1 <= ScanRecords.repeat_vins df).
Proof.
  intros df missing.
  pose proof (occ_nan_missing csv) as Hocc.
  fold missing in Hocc. rewrite <- scan_records_vin_column in Hocc.
  fold df in Hocc.
  set (vins := dropna (map ScanRecords.VIN df)) in *.
  assert (Hpos : 1 <= missing).
  { destruct Hmissing as (r & I & E). unfold missing.
    assert (In r (filter (fun r => keqb (ScanRecords.csv_VIN r) NaN) csv)) as I'.
    { apply filter_In. split; [assumption|]. now rewrite E. }
    destruct (filter _ csv); [contradiction | simpl; lia]. }
  assert (Htable : In ("nan"%string, occ "nan"%string vins)
                      (ScanRecords.vin_counts df)).
  { apply (table_In vins (value_counts_perm vins)). lia. }
  split; [|split; [|split; [|split]]].
  - intros r E. unfold ScanRecords.load_row. simpl. now rewrite E.
  - unfold vins, df. rewrite scan_records_vin_column.
    unfold ScanRecords.load_data. now rewrite !length_map.
  - exists (occ "nan"%string vins). split; assumption.
  - unfold ScanRecords.unique_vins, ScanRecords.vin_counts. fold vins.
    rewrite (table_length vins (value_counts_perm vins)), count_first_length.
    apply nunique_remove. apply occ_pos. lia.
  - intros H2.
    assert (Hin : In ("nan"%string, occ "nan"%string vins)
                     (filter (fun p => 1 <? snd p) (ScanRecords.vin_counts df))).
    { apply filter_In. split; [assumption|]. simpl. apply Nat.ltb_lt. lia. }
    split.
    + apply (in_map fst) in Hin. exact Hin.
    + unfold ScanRecords.repeat_vins.
      destruct (filter _ (ScanRecords.vin_counts df)); [contradiction|simpl; lia].
Qed.

Lemma missing_vin_counted_as_nan_witness :
  let csv :=
    [ {| ScanRecords.csv_CreatedDateTimeUTC := None;
         ScanRecords.csv_AccountId := Str "7";
         ScanRecords.csv_Email := Str "a@x.com";
         ScanRecords.csv_VIN := NaN;
         ScanRecords.csv_State := Str "CA" |};
      {| ScanRecords.csv_CreatedDateTimeUTC := None;
         ScanRecords.csv_AccountId := Str "8";
         ScanRecords.csv_Email := Str "b@x.com";
         ScanRecords.csv_VIN := NaN;
         ScanRecords.csv_State := Str "TX" |};
      {| ScanRecords.csv_CreatedDateTimeUTC := None;
         ScanRecords.csv_AccountId := Str "9";
         ScanRecords.csv_Email := Str "c@x.com";
         ScanRecords.csv_VIN := Str "1HGCM82633A004352";
         ScanRecords.csv_State := Str "TX" |} ] in
  ScanRecords.unique_vins (ScanRecords.load_data csv) = 2
  /\ ScanRecords.repeat_vins (ScanRecords.load_data csv) = 1
  /\ 1 <= ScanRecords.repeat_vins (ScanRecords.load_data csv).
Proof.
  intros csv.
  assert (Hmissing : exists r, In r csv /\ ScanRecords.csv_VIN r = NaN).
  { eexists. split; [left; reflexivity | reflexivity]. }
  pose proof (missing_vin_counted_as_nan csv Hmissing) as (_ & _ & _ & _ & H2).
  split; [reflexivity | split; [reflexivity|]].
  apply H2. vm_compute. lia.
Defined.

(** ** Counting rows *)

Lemma In_dropna (s : string) col : In s (dropna col) <-> In (Str s) col.
Proof.
  unfold dropna. rewrite in_flat_map. split.
  - intros (c & I & Hs). destruct c; simpl in Hs; try contradiction.
    destruct Hs as [->|[]]. assumption.
  - intros I. exists (Str s). split; [assumption | now left].
Qed.

Lemma dropna_length_le col : List.length (dropna col) <= List.length col.
Proof.
  induction col as [|c col IH]; simpl.
  - apply Nat.le_refl.
  - destruct c; simpl; lia.
Qed.

Lemma total_filter_le {K} (f : K * nat -> bool) acc :
  total (filter f acc) <= total acc.
Proof.
  unfold total. induction acc as [|p acc IH]; simpl.
  - apply Nat.le_refl.
  - destruct (f p); simpl; lia.
Qed.

Lemma occ_flat_map_filter {A K} `{KeyLaws K} (h : A -> list K) (f : A -> bool)
      (k : K) l :
  occ k (flat_map h (filter f l)) <= occ k (flat_map h l).
Proof.
  induction l as [|x l IH]; simpl.
  - apply Nat.le_refl.
  - destruct (f x); simpl; rewrite ?occ_app; lia.
Qed.

(** ** Totals and repeat counts *)

Lemma rs2_repeat_accounts_are_users (df : list Rs2.Row) :
  incl (map (fun p => fst (fst p))
            (filter (fun p => 2 <=? snd p) (Rs2.repeat_pairs df)))
       (dropna (map Rs2.UserId df)).
Proof.
  intros u I. apply in_map_iff in I as ([[u' v] n] & E & I). simpl in E. subst u'.
  apply filter_In in I as [I _].
  apply (in_map fst) in I. simpl in I. unfold Rs2.repeat_pairs in I.
  match type of I with
  | In _ (map fst (groupby_size ?L)) =>
      apply (table_keys L (groupby_size_perm L)) in I
  end.
  apply in_flat_map in I as (r & Ir & I).
  apply In_dropna. apply in_map_iff. exists r. split; [|assumption].
  destruct (Rs2.UserId r) as [u'| | |]; try contradiction.
  destruct (Rs2.VIN r); try contradiction.
  destruct I as [[= -> _]|[]]. reflexivity.
Qed.

Lemma rs2_total_scanned_users (df : list Rs2.Row) :
  Rs2.total_scanned_users df = nunique (dropna (map Rs2.UserId df)).
Proof.
  unfold Rs2.total_scanned_users, Rs2.user_counts.
  now rewrite (table_length _ (value_counts_perm _)), count_first_length.
Qed.

Lemma rs2_repeat_le_users (df : list Rs2.Row) :
  Rs2.repeat_user_count df <= Rs2.total_scanned_users df.
Proof.
  rewrite rs2_total_scanned_users.
  apply nunique_incl, rs2_repeat_accounts_are_users.
Qed.

Lemma scan_records_repeat_users_le (df : list ScanRecords.Row) :
  ScanRecords.repeat_users df <= ScanRecords.unique_users df.
Proof. apply filter_length_le. Qed.

Lemma scan_records_repeat_scans_le (df : list ScanRecords.Row) :
  ScanRecords.repeat_user_scans df <= ScanRecords.total_scans df.
Proof.
  unfold ScanRecords.repeat_user_scans, ScanRecords.repeat_user_counts,
    ScanRecords.total_scans.
  etransitivity; [apply total_filter_le|].
  unfold ScanRecords.user_counts.
  rewrite (table_total _ (groupby_size_perm _)).
  etransitivity; [apply dropna_length_le|]. now rewrite length_map.
Qed.

(** C5. In both scripts the "Total scans" card is the number of records
    that [load_data] returns, which is the number of rows read. The repeat
    counts never exceed their totals: in [rs2_dr_dashboard] the repeat
    users are at most the scanned users; in [scan_records_dashboard] the
    repeat users are at most the unique users and the repeat-user scans
    are at most the total scans. *)
Theorem totals_and_repeat_counts
  (rs2_csv : list Rs2.Csv) (sr_csv : list ScanRecords.Csv)
  (rs2 : list Rs2.Row) (sr : list ScanRecords.Row) :
  (Rs2.total_scans (Rs2.load_data rs2_csv) = List.length rs2_csv
   /\ In {| label := "Total scans";
            value := inject_Z (Z.of_nat (List.length rs2)); kind := Count |}
         (Rs2.cards rs2))
  /\ (ScanRecords.total_scans (ScanRecords.load_data sr_csv) = List.length sr_csv
      /\ In {| label := "Total scans";
               value := inject_Z (Z.of_nat (List.length sr)); kind := Count |}
            (ScanRecords.summary sr))
  /\ Rs2.repeat_user_count rs2 <= Rs2.total_scanned_users rs2
  /\ ScanRecords.repeat_users sr <= ScanRecords.unique_users sr
  /\ ScanRecords.repeat_user_scans sr <= ScanRecords.total_scans sr.
Proof.
  repeat split.
  - unfold Rs2.total_scans, Rs2.load_data. apply length_map.
  - left. reflexivity.
  - unfold ScanRecords.total_scans, ScanRecords.load_data. apply length_map.
  - left. reflexivity.
  - apply rs2_repeat_le_users.
  - apply scan_records_repeat_users_le.
  - apply scan_records_repeat_scans_le.
Qed.

(** ** Ratios *)

Lemma Zpos_of_nat (b : nat) : b <> 0 -> Zpos (Pos.of_nat b) = Z.of_nat b.
Proof.
  intros N. rewrite <- positive_nat_Z. now rewrite Nat2Pos.id.
Qed.

Lemma ratio_unit (a b : nat) :
  a <= b -> b <> 0 ->
  (0 <= Z.of_nat a # Pos.of_nat b /\ Z.of_nat a # Pos.of_nat b <= 1)%Q.
Proof.
  intros L N. unfold Qle. cbn [Qnum Qden].
  rewrite (Zpos_of_nat N). lia.
Qed.

Lemma share_unit (a b : nat) : a <= b -> (0 <= share a b /\ share a b <= 1)%Q.
Proof.
  intros L. unfold share. destruct (Nat.eqb_spec b 0) as [E|E].
  - split; [apply Qle_refl | discriminate].
  - now apply ratio_unit.
Qed.

Lemma share_zero (a : nat) : share a 0 = 0%Q.
Proof. reflexivity. Qed.

Lemma div_unit (a b : nat) : a <= b -> 0 < b -> unit_ratio (div a b).
Proof.
  intros L P. destruct b as [|b]; [lia|].
  unfold div, unit_ratio. apply ratio_unit; lia.
Qed.

Lemma or_one_pos (x : nat) : 0 < or_one x.
Proof. unfold or_one. destruct (Nat.eqb_spec x 0); lia. Qed.

Lemma or_one_le (a x : nat) : a <= x -> a <= or_one x.
Proof. unfold or_one. destruct (Nat.eqb_spec x 0); lia. Qed.

(** ** Per-state rollups of scan_records_dashboard *)

Section ScanRecordsStates.
Import ScanRecords.

(** The state of a row, as a list: empty when the state is null. *)
Local Abbreviation st := (fun r : Row => match State r with Str s => [s] | _ => [] end).

Lemma sr_states_flat (rows : list Row) :
  dropna (map State (with_state rows)) = flat_map st rows.
Proof.
  induction rows as [|r rows IH]; simpl.
  - reflexivity.
  - destruct (State r) eqn:E; simpl; rewrite ?E; simpl; now rewrite IH.
Qed.

Lemma sr_occ_states (s : string) (rows : list Row) :
  occ s (flat_map st rows)
  = List.length (filter (fun r => keqb (State r) (Str s)) rows).
Proof.
  induction rows as [|r rows IH].
  - reflexivity.
  - cbn [flat_map filter]. rewrite occ_app, IH.
    destruct (State r) as [s'| | |]; try reflexivity.
    rewrite occ_cons, occ_nil.
    change (keqb (Str s') (Str s)) with (String.eqb s' s).
    change (keqb s s') with (String.eqb s s').
    rewrite (String.eqb_sym s s').
    destruct (String.eqb s' s); cbn [List.length]; lia.
Qed.

Lemma sr_states_length (rows : list Row) :
  List.length (flat_map st rows) <= List.length rows.
Proof.
  induction rows as [|r rows IH]; simpl.
  - apply Nat.le_refl.
  - destruct (State r); simpl; lia.
Qed.

Lemma sr_state_counts_perm (df : list Row) :
  Permutation (state_counts df) (count_first (flat_map st df)).
Proof.
  unfold state_counts. rewrite sort_values_desc_perm, sr_states_flat.
  apply groupby_size_perm.
Qed.

Lemma sr_get_count (s : string) (l : list string) acc :
  Permutation acc (count_first l) ->
  match get s acc with Some n => n | None => 0 end = occ s l.
Proof.
  intros P. rewrite (table_get l P).
  destruct (Nat.eqb_spec (occ s l) 0); congruence.
Qed.

Lemma sr_state_summary_unit (df : list Row) :
  Forall (fun row => unit_ratio (ss_repeat_scan_share row)
                     /\ unit_ratio (ss_scan_share row))
         (state_summary df).
Proof.
  unfold state_summary. apply Forall_map, Forall_forall. intros [s n] I.
  apply (table_In _ (sr_state_counts_perm df)) in I as [-> Hpos].
  cbn [fst snd ss_repeat_scan_share ss_scan_share]. split.
  - apply div_unit; [|assumption].
    unfold repeat_state_counts.
    erewrite sr_get_count by apply groupby_size_perm.
    rewrite sr_states_flat.
    apply occ_flat_map_filter.
  - apply div_unit; [|apply or_one_pos].
    apply or_one_le. unfold total_scans.
    etransitivity; [apply occ_le_length | apply sr_states_length].
Qed.

End ScanRecordsStates.

(** ** Lists of distinct rows *)

Lemma NoDup_map_filter {A B} (f : A -> B) (p : A -> bool) l :
  NoDup (map f l) -> NoDup (map f (filter p l)).
Proof.
  induction l as [|x l IH]; simpl; intros ND.
  - constructor.
  - inversion ND as [|? ? Hx ND']; subst. destruct (p x); simpl.
    + constructor; [|now apply IH].
      intros I. apply Hx. apply in_map_iff in I as (y & E & I).
      apply filter_In in I as [I _]. apply in_map_iff. now exists y.
    + now apply IH.
Qed.

Lemma NoDup_map_finer {A B C} (f : A -> B) (g : A -> C) l :
  NoDup (map f l) ->
  (forall x y, In x l -> In y l -> g x = g y -> f x = f y) ->
  NoDup (map g l).
Proof.
  induction l as [|x l IH]; simpl; intros ND E.
  - constructor.
  - inversion ND as [|? ? Hx ND']; subst. constructor.
    + intros I. apply Hx. apply in_map_iff in I as (y & Eg & I).
      apply in_map_iff. exists y. split; [|assumption].
      symmetry. apply E; auto.
    + apply IH; [assumption|]. intros a b Ia Ib. apply E; auto.
Qed.

Lemma combine_map_self {A B} (g : A -> B) (l : list A) :
  combine l (map g l) = map (fun p => (p, g p)) l.
Proof.
  induction l as [|x l IH]; simpl; [reflexivity | now rewrite IH].
Qed.

(** ** Index alignment *)

Lemma get_map_graph {K V} `{KeyLaws K} (G : K -> V) (idx : list K) (k : K) :
  get k (map (fun l => (l, G l)) idx) = if isin k idx then Some (G k) else None.
Proof.
  induction idx as [|x idx IH]; simpl.
  - reflexivity.
  - destruct (keqb_spec k x) as [->|N]; simpl; [reflexivity | apply IH].
Qed.

Lemma get_with_labels_At {V} (i : nat) (s : list (string * V)) :
  get (At i) (with_labels s) = None.
Proof.
  induction s as [|[k v] s IH]; simpl; [reflexivity | apply IH].
Qed.

Lemma keys_combine {A B} (l1 : list A) : forall l2 : list B,
  List.length l1 <= List.length l2 -> map fst (combine l1 l2) = l1.
Proof.
  induction l1 as [|x l1 IH]; intros [|y l2] L; simpl in *;
    try reflexivity; try lia.
  f_equal. apply IH. lia.
Qed.

Lemma keys_with_range_index {V} (vals : list V) :
  map fst (with_range_index vals) = map At (seq 0 (List.length vals)).
Proof.
  unfold with_range_index. apply keys_combine.
  now rewrite length_map, length_seq.
Qed.

(** A column of a frame divided by a series labelled by strings: no label
    is shared, every quotient is [NaN], and [fillna(0)] makes it [0]. *)
Lemma misaligned_division (xs : list nat) (ys : list (string * option nat)) :
  setitem_aligned (List.length xs)
    (map (fun p => (fst p, fillna 0 (snd p)))
         (truediv_aligned (with_range_index xs) (with_labels ys)))
  = repeat (Num 0) (List.length xs).
Proof.
  unfold setitem_aligned, truediv_aligned.
  rewrite map_map. cbn [fst snd].
  rewrite keys_with_range_index.
  set (idx := map At (seq 0 (List.length xs)) ++ _).
  transitivity (map (fun _ : nat => Num 0) (seq 0 (List.length xs)));
    [|now rewrite map_const, length_seq].
  apply map_ext_in. intros i Hi.
  rewrite (get_map_graph
             (fun l => fillna 0
                match get l (with_range_index xs), get l (with_labels ys) with
                | Some x, Some (Some y) => div x y
                | _, _ => FNaN
                end) idx (At i)).
  assert (Hin : isin (At i) idx = true).
  { apply isin_In. unfold idx. apply in_or_app. left. now apply in_map. }
  rewrite Hin, get_with_labels_At.
  now destruct (get (At i) (with_range_index xs)).
Qed.

Section ScanRecordsRepeatUsers.
Import ScanRecords.
Variable df : list Row.

Local Abbreviation st := (fun r : Row => match State r with Str s => [s] | _ => [] end).
Local Abbreviation is_repeat := (fun r : Row => cell_isin (AccountKey r) (repeat_user_ids df)).

Lemma sr_states_flat_plain (rows : list Row) :
  dropna (map State rows) = flat_map st rows.
Proof.
  induction rows as [|r rows IH]; simpl.
  - reflexivity.
  - rewrite IH. now destruct (State r).
Qed.

Lemma sr_repeat_users_length :
  List.length (repeat_user_ids df) = repeat_users df.
Proof. unfold repeat_user_ids, repeat_user_counts, repeat_users. apply length_map. Qed.

(** Within one state, the repeat users are distinct repeat users. *)
Lemma sr_repeat_users_in_state_le (s : string) :
  occ s (flat_map st (filter is_repeat (user_state df))) <= repeat_users df.
Proof.
  rewrite sr_occ_states, <- sr_repeat_users_length.
  set (Rs := filter (fun r => keqb (State r) (Str s))
                    (filter is_repeat (user_state df))).
  rewrite <- (length_map AccountKey Rs), <- (length_map Str (repeat_user_ids df)).
  apply NoDup_incl_length.
  - apply NoDup_map_finer with (f := fun r => (State r, AccountKey r)).
    + unfold Rs. do 2 apply NoDup_map_filter. apply ddb_NoDup.
    + intros x y Ix Iy E. unfold Rs in Ix, Iy.
      apply filter_In in Ix as [_ Ex]. apply filter_In in Iy as [_ Ey].
      apply keqb_eq in Ex. apply keqb_eq in Ey. congruence.
  - intros c I. apply in_map_iff in I as (r & <- & I).
    unfold Rs in I. apply filter_In in I as [I _]. apply filter_In in I as [_ I].
    destruct (AccountKey r) as [u| | |]; simpl in I; try discriminate.
    apply in_map. now apply isin_In.
Qed.

Lemma sr_repeat_users_column :
  combine (state_counts df) (repeat_users_column df)
  = map (fun p => (p, occ (fst p) (flat_map st (filter is_repeat (user_state df)))))
        (state_counts df).
Proof.
  unfold repeat_users_column, reindex. rewrite !map_map. cbn [snd].
  rewrite <- (map_map fst (fun k => match get k (repeat_users_by_state df) with
                                    | Some v => v | None => 0 end)).
  rewrite map_map, combine_map_self. apply map_ext. intros p. f_equal.
  unfold repeat_users_by_state.
  erewrite sr_get_count by apply groupby_size_perm.
  now rewrite sr_states_flat_plain.
Qed.

Lemma sr_share_in_state_column :
  repeat_user_share_in_state_column df
  = repeat (Num 0) (List.length (state_counts df)).
Proof.
  unfold repeat_user_share_in_state_column.
  assert (L : List.length (repeat_users_column df) = List.length (state_counts df)).
  { unfold repeat_users_column, reindex. now rewrite !length_map. }
  rewrite <- L. apply misaligned_division.
Qed.

Lemma sr_repeat_user_state_unit :
  Forall (fun row => unit_ratio (rs_repeat_user_share_all_repeat row)
                     /\ rs_repeat_user_share_in_state row = Num 0
                     /\ (repeat_users df = 0 ->
                         rs_repeat_user_share_all_repeat row = Num 0))
         (repeat_user_state df).
Proof.
  unfold repeat_user_state. apply Forall_map, Forall_forall.
  intros [[p n] v] I.
  pose proof (in_combine_l _ _ _ _ I) as Il.
  pose proof (in_combine_r _ _ _ _ I) as Ir.
  rewrite sr_repeat_users_column in Il.
  apply in_map_iff in Il as (q & [= <- <-] & _).
  rewrite sr_share_in_state_column in Ir. apply repeat_spec in Ir. subst v.
  cbn [fst snd rs_repeat_user_share_all_repeat rs_repeat_user_share_in_state].
  pose proof (sr_repeat_users_in_state_le (fst q)) as Hle.
  split; [|split].
  - apply div_unit; [now apply or_one_le | apply or_one_pos].
  - reflexivity.
  - intros Z. rewrite Z in *.
    replace (occ _ _) with 0 by lia. reflexivity.
Qed.

End ScanRecordsRepeatUsers.

(** C1. Every ratio that [summarize] produces lies in [[0, 1]], and a
    ratio whose denominator is zero is [0]: the repeat-user share of
    [rs2_dr_dashboard]; the repeat-user scan share and the repeat-user
    share of [scan_records_dashboard]; per state, the repeat-scan share,
    the scan share and the two repeat-user shares. The per-state values
    are numbers, never [NaN] or infinite. *)
Theorem ratios_in_unit_interval (rs2 : list Rs2.Row) (sr : list ScanRecords.Row) :
  ((0 <= Rs2.repeat_user_share rs2 /\ Rs2.repeat_user_share rs2 <= 1)%Q
   /\ (Rs2.total_scanned_users rs2 = 0 -> Rs2.repeat_user_share rs2 = 0%Q))
  /\ ((0 <= ScanRecords.repeat_user_scan_share sr
       /\ ScanRecords.repeat_user_scan_share sr <= 1)%Q
      /\ (ScanRecords.total_scans sr = 0 ->
          ScanRecords.repeat_user_scan_share sr = 0%Q))
  /\ ((0 <= ScanRecords.repeat_user_share sr
       /\ ScanRecords.repeat_user_share sr <= 1)%Q
      /\ (ScanRecords.unique_users sr = 0 ->
          ScanRecords.repeat_user_share sr = 0%Q))
  /\ Forall (fun row => unit_ratio (ScanRecords.ss_repeat_scan_share row)
                        /\ unit_ratio (ScanRecords.ss_scan_share row))
            (ScanRecords.state_summary sr)
  /\ Forall (fun row =>
               unit_ratio (ScanRecords.rs_repeat_user_share_all_repeat row)
               /\ unit_ratio (ScanRecords.rs_repeat_user_share_in_state row)
               /\ (ScanRecords.repeat_users sr = 0 ->
                   ScanRecords.rs_repeat_user_share_all_repeat row = Num 0))
            (ScanRecords.repeat_user_state sr).
Proof.
  split; [|split; [|split; [|split]]].
  - split.
    + apply share_unit, rs2_repeat_le_users.
    + intros E. unfold Rs2.repeat_user_share. rewrite E. apply share_zero.
  - split.
    + apply share_unit, scan_records_repeat_scans_le.
    + intros E. unfold ScanRecords.repeat_user_scan_share. rewrite E.
      apply share_zero.
  - split.
    + apply share_unit, scan_records_repeat_users_le.
    + intros E. unfold ScanRecords.repeat_user_share. rewrite E.
      apply share_zero.
  - apply sr_state_summary_unit.
  - eapply Forall_impl; [|apply sr_repeat_user_state_unit].
    intros row (U & Z & N). split; [assumption | split; [|assumption]].
    rewrite Z. simpl. split; [apply Qle_refl | discriminate].
Qed.

Lemma ratios_in_unit_interval_witness :
  let sr := ScanRecords.load_data
              [ScanRecords.sample_csv (Str "1") NaN NaN (Str "CA")] in
  Rs2.repeat_user_share [] = 0%Q
  /\ ScanRecords.repeat_user_scan_share [] = 0%Q
  /\ ScanRecords.repeat_user_share [] = 0%Q
  /\ Forall (fun row => ScanRecords.rs_repeat_user_share_all_repeat row = Num 0)
            (ScanRecords.repeat_user_state sr).
Proof.
  intros sr.
  pose proof (ratios_in_unit_interval [] []) as ((_ & A) & (_ & B) & (_ & C) & _).
  pose proof (ratios_in_unit_interval [] sr) as (_ & _ & _ & _ & D).
  split; [apply A; reflexivity | split; [apply B; reflexivity | split]].
  - apply C. reflexivity.
  - eapply Forall_impl; [|exact D]. intros row (_ & _ & Z). apply Z. reflexivity.
Defined.

(** ** Ranked tables *)

Section SortedFacts.
Context {A : Type}.

Lemma StronglySorted_weaken (R R' : A -> A -> Prop) l :
  (forall a b, In a l -> In b l -> R a b -> R' a b) ->
  StronglySorted R l -> StronglySorted R' l.
Proof.
  induction l as [|x l IH]; intros E S.
  - constructor.
  - inversion S as [|? ? S' F]; subst. constructor.
    + apply IH; [|assumption]. intros a b Ia Ib. apply E; now right.
    + apply Forall_forall. intros b Ib.
      apply E; [now left | now right |].
      rewrite Forall_forall in F. now apply F.
Qed.

Lemma StronglySorted_snoc (R : A -> A -> Prop) l x :
  StronglySorted R l -> Forall (fun a => R a x) l -> StronglySorted R (l ++ [x]).
Proof.
  induction l as [|y l IH]; simpl; intros S F.
  - repeat constructor.
  - inversion S as [|? ? S' Fy]; subst. inversion F as [|? ? Ryx F']; subst.
    constructor; [now apply IH|].
    apply Forall_app. split; [assumption | now constructor].
Qed.

Lemma In_firstn_In (n : nat) : forall (l : list A) x, In x (firstn n l) -> In x l.
Proof.
  induction n as [|n IH]; intros [|y l] x; simpl; try tauto.
  intros [->|I]; [now left | right; now apply IH].
Qed.

Lemma StronglySorted_firstn (R : A -> A -> Prop) n : forall l,
  StronglySorted R l -> StronglySorted R (firstn n l).
Proof.
  induction n as [|n IH]; intros [|x l] S; simpl; try constructor.
  - inversion S; subst. now apply IH.
  - inversion S as [|? ? S' F]; subst.
    apply Forall_forall. intros b Ib. rewrite Forall_forall in F.
    apply F. now apply In_firstn_In in Ib.
Qed.

Lemma StronglySorted_map_inv {B} (f : A -> B) (R : B -> B -> Prop) l :
  StronglySorted R (map f l) <-> StronglySorted (fun a b => R (f a) (f b)) l.
Proof.
  induction l as [|x l IH]; simpl.
  - split; constructor.
  - split; intros S; inversion S as [|? ? S' F]; subst; constructor;
      try (now apply IH).
    + rewrite Forall_map in F. exact F.
    + rewrite Forall_map. exact F.
Qed.

Lemma StronglySorted_NoDup {B} (f : A -> B) (R : A -> A -> Prop) l :
  StronglySorted R l -> NoDup (map f l) ->
  StronglySorted (fun a b => R a b /\ f a <> f b) l.
Proof.
  induction l as [|x l IH]; simpl; intros S ND.
  - constructor.
  - inversion S as [|? ? S' F]; subst. inversion ND as [|? ? Hx ND']; subst.
    constructor; [now apply IH|].
    apply Forall_forall. intros b Ib. rewrite Forall_forall in F.
    split; [now apply F|]. intros E. apply Hx. rewrite E. now apply in_map.
Qed.

End SortedFacts.

Section StableSort.
Context {A : Type} (cnt : A -> nat) (before : A -> A -> Prop).

Lemma ranked_count_le (a b : A) : ranked cnt before a b -> cnt b <= cnt a.
Proof. unfold ranked. lia. Qed.

Lemma insert_desc_sorted (x : A) s :
  StronglySorted (ranked cnt before) s -> Forall (before x) s ->
  StronglySorted (ranked cnt before) (insert_desc cnt x s).
Proof.
  induction s as [|y s IH]; simpl; intros S F.
  - repeat constructor.
  - inversion S as [|? ? S' Fy]; subst. inversion F as [|? ? Bxy F']; subst.
    destruct (Nat.ltb_spec (cnt x) (cnt y)) as [L|L].
    + constructor; [now apply IH|].
      eapply Permutation_Forall; [symmetry; apply insert_desc_perm|].
      constructor; [now left | assumption].
    + constructor; [assumption|].
      apply Forall_forall. intros z Iz.
      assert (Hz : cnt z <= cnt y).
      { destruct Iz as [->|Iz]; [lia|].
        rewrite Forall_forall in Fy. now apply ranked_count_le, Fy. }
      rewrite Forall_forall in F.
      destruct (Nat.eq_dec (cnt x) (cnt z)) as [E|E].
      * right. split; [assumption | now apply F].
      * left. lia.
Qed.

(** A stable sort by descending count keeps, among rows of equal count,
    the order the rows had. *)
Lemma sort_values_desc_sorted (l : list A) :
  StronglySorted before l ->
  StronglySorted (ranked cnt before) (sort_values_desc cnt l).
Proof.
  induction l as [|x l IH]; simpl; intros S.
  - constructor.
  - inversion S as [|? ? S' F]; subst.
    apply insert_desc_sorted; [now apply IH|].
    eapply Permutation_Forall; [symmetry; apply sort_values_desc_perm | exact F].
Qed.

End StableSort.

Section FirstSeen.
Context {K : Type} `{KeyLaws K}.

Lemma index_lt_length (k : K) l : In k l -> index k l < List.length l.
Proof.
  induction l as [|x l IH]; simpl; [tauto|]. intros I.
  destruct (keqb_spec k x) as [->|N]; [lia|].
  destruct I as [E|I]; [congruence|]. apply IH in I. lia.
Qed.

Lemma index_app_l (k : K) l1 l2 : In k l1 -> index k (l1 ++ l2) = index k l1.
Proof.
  induction l1 as [|x l1 IH]; simpl; [tauto|]. intros I.
  destruct (keqb_spec k x) as [->|N]; [reflexivity|].
  destruct I as [E|I]; [congruence|]. now rewrite IH.
Qed.

Lemma index_app_r (k : K) l1 l2 :
  ~ In k l1 -> index k (l1 ++ l2) = List.length l1 + index k l2.
Proof.
  induction l1 as [|x l1 IH]; simpl; [reflexivity|]. intros N.
  destruct (keqb_spec k x) as [->|N']; [tauto|].
  rewrite IH; tauto.
Qed.

(** The keys of the frequency table are in first-encountered order. *)
Lemma keys_first_seen (l : list K) :
  StronglySorted (first_seen l) (map fst (count_first l)).
Proof.
  induction l as [|x l IH] using rev_ind.
  - constructor.
  - rewrite count_first_snoc, keys_bump.
    assert (S : StronglySorted (first_seen (l ++ [x])) (map fst (count_first l))).
    { eapply StronglySorted_weaken; [|exact IH].
      intros a b Ia Ib.
      apply (proj1 (keys_count_first_In a l)) in Ia.
      apply (proj1 (keys_count_first_In b l)) in Ib.
      unfold first_seen. now rewrite !index_app_l. }
    destruct (isin x (map fst (count_first l))) eqn:E; [assumption|].
    apply StronglySorted_snoc; [assumption|].
    apply isin_false in E. rewrite keys_count_first_In in E.
    apply Forall_forall. intros a Ia.
    apply (proj1 (keys_count_first_In a l)) in Ia.
    unfold first_seen. rewrite index_app_l by assumption.
    rewrite index_app_r by assumption.
    apply index_lt_length in Ia. lia.
Qed.

(** [value_counts]: descending counts, ties in first-encountered order. *)
Lemma value_counts_ranked (l : list K) :
  StronglySorted (ranked snd (fun a b => first_seen l (fst a) (fst b)))
                 (value_counts l).
Proof.
  unfold value_counts. apply sort_values_desc_sorted.
  apply (StronglySorted_map_inv fst (first_seen l)). apply keys_first_seen.
Qed.

End FirstSeen.

(** ** Group keys in ascending order *)

Lemma string_compare_OT (a b : string) :
  String.compare a b = String_as_OT.compare a b.
Proof.
  reflexivity.
Qed.

Lemma string_leb_not_lt (a b : string) :
  String.leb a b = true <-> ~ String_as_OT.lt b a.
Proof.
  unfold String.leb. rewrite string_compare_OT.
  destruct (String_as_OT.compare_spec a b) as [E|L|L].
  - change (a = b) in E. subst. split; [|reflexivity]. intros _ C.
    exact (StrictOrder_Irreflexive b C).
  - split; [|reflexivity]. intros _ C.
    exact (StrictOrder_Irreflexive a (StrictOrder_Transitive _ _ _ L C)).
  - split; [discriminate|]. intros C. exfalso. apply C. exact L.
Qed.

#[export] Instance OrdLaws_string : OrdLaws string.
Proof.
  constructor.
  - exact String.leb_total.
  - intros a b c. simpl. rewrite !string_leb_not_lt. intros Hab Hbc Hca.
    destruct (String_as_OT.compare_spec a b) as [E|L|L].
    + change (a = b) in E. subst. contradiction.
    + apply Hbc. exact (StrictOrder_Transitive _ _ _ Hca L).
    + contradiction.
Qed.

Section KeyOrder.
Context {K : Type} `{KeyLaws K} `{OrdLaws K}.

Lemma insert_key_sorted {V} (x : K * V) s :
  StronglySorted (fun a b => kleb (fst a) (fst b) = true) s ->
  StronglySorted (fun a b => kleb (fst a) (fst b) = true) (insert_key x s).
Proof.
  induction s as [|y s IH]; simpl; intros S.
  - repeat constructor.
  - inversion S as [|? ? S' F]; subst.
    destruct (kleb (fst x) (fst y)) eqn:L.
    + constructor; [assumption|]. constructor; [assumption|].
      eapply Forall_impl; [|exact F]. intros z Lz. simpl in *.
      now apply kleb_trans with (fst y).
    + constructor; [now apply IH|].
      eapply Permutation_Forall; [symmetry; apply insert_key_perm|].
      constructor; [|assumption].
      destruct (kleb_total (fst x) (fst y)); congruence.
Qed.

Lemma sort_index_sorted {V} (l : list (K * V)) :
  StronglySorted (fun a b => kleb (fst a) (fst b) = true) (sort_index l).
Proof.
  induction l as [|x l IH]; simpl.
  - constructor.
  - now apply insert_key_sorted.
Qed.

(** [groupby(key).size()] lists the keys in strictly ascending order. *)
Lemma groupby_size_ascending (l : list K) :
  StronglySorted (fun a b => key_lt (fst a) (fst b)) (groupby_size l).
Proof.
  apply (StronglySorted_NoDup fst).
  - apply sort_index_sorted.
  - apply (table_NoDup l). apply groupby_size_perm.
Qed.

End KeyOrder.

(** ** The ranked tables of the two scripts *)

(** State counts: descending count, ties in ascending state code. *)
Lemma state_counts_ranked (states : list string) :
  StronglySorted (ranked snd (fun a b => key_lt (fst a) (fst b)))
                 (sort_values_desc snd (groupby_size states)).
Proof. apply sort_values_desc_sorted, groupby_size_ascending. Qed.

Lemma sr_state_summary_ranked (df : list ScanRecords.Row) :
  StronglySorted
    (ranked ScanRecords.ss_total_scans
            (fun a b => key_lt (ScanRecords.ss_state a) (ScanRecords.ss_state b)))
    (ScanRecords.state_summary df).
Proof.
  unfold ScanRecords.state_summary. apply StronglySorted_map_inv.
  apply state_counts_ranked.
Qed.

(** C2 as it is worded fails on the top-states tables: with one scan in
    Texas followed by one scan in California, the two states tie and the
    table lists California first. *)
Lemma top_states_ties_not_first_seen :
  let df := Rs2.load_data [Rs2.sample_csv NaN NaN (Str "TX") None;
                           Rs2.sample_csv NaN NaN (Str "CA") None] in
  dropna (map Rs2.State df) = ["TX"; "CA"]%string
  /\ Rs2.top_states df = [("CA", 1); ("TX", 1)]%string
  /\ ~ StronglySorted
         (ranked snd (fun a b =>
            first_seen (dropna (map Rs2.State df)) (fst a) (fst b)))
         (Rs2.top_states df).
Proof.
  split; [reflexivity | split; [reflexivity|]].
  intros S. inversion S as [|? ? _ F]; subst.
  inversion F as [|? ? R _]; subst.
  vm_compute in R. destruct R as [R|[_ R]]; lia.
Qed.

(** ** The hourly series *)

Lemma zmax_spec (M : Z) (l : list Z) : forall x,
  (x <= M)%Z -> Forall (fun y => (y <= M)%Z) l -> x = M \/ In M l ->
  zmax x l = M.
Proof.
  unfold zmax. induction l as [|y l IH]; simpl; intros x Lx F I.
  - destruct I as [I|[]]. exact I.
  - inversion F as [|? ? Ly F']; subst. apply IH.
    + lia.
    + assumption.
    + destruct I as [->|[->|I]]; [left; lia | left; lia | now right].
Qed.

Lemma zmin_le_zmax (t0 : Z) (rest : list Z) : (zmin t0 rest <= zmax t0 rest)%Z.
Proof.
  unfold zmin, zmax.
  assert (G : forall a b, (a <= b)%Z ->
                          (fold_left Z.min rest a <= fold_left Z.max rest b)%Z).
  { induction rest as [|y l IH]; simpl; intros a b L; [assumption|].
    apply IH. lia. }
  apply G. lia.
Qed.

Lemma filter_seq_ge (k n : nat) :
  filter (fun i => k <=? i) (seq 0 n) = seq k (n - k).
Proof.
  induction n as [|n IH].
  - reflexivity.
  - rewrite seq_S, filter_app, IH. change (0 + n) with n. cbn [filter].
    destruct (Nat.leb_spec k n) as [L|L].
    + replace (S n - k) with (S (n - k)) by lia.
      rewrite seq_S. replace (k + (n - k)) with n by lia. reflexivity.
    + replace (n - k) with 0 by lia. replace (S n - k) with 0 by lia.
      reflexivity.
Qed.

Lemma filter_map_comm {A B} (p : B -> bool) (g : A -> B) (l : list A) :
  filter p (map g l) = map g (filter (fun a => p (g a)) l).
Proof.
  induction l as [|x l IH]; simpl; [reflexivity|].
  rewrite IH. now destruct (p (g x)).
Qed.

Lemma dropna_num_some {A} (col : list (option A)) x rest :
  dropna_num col = x :: rest ->
  existsb (fun t => match t with Some _ => true | None => false end) col = true.
Proof.
  induction col as [|[a|] col IH]; simpl; intros E.
  - discriminate.
  - reflexivity.
  - now apply IH.
Qed.

Lemma seq_from (k n : nat) : seq k n = map (fun i => k + i) (seq 0 n).
Proof.
  revert k. induction n as [|n IH]; intros k; simpl; [reflexivity|].
  rewrite Nat.add_0_r. f_equal. rewrite (IH (S k)), (IH 1), map_map.
  apply map_ext. intros i. lia.
Qed.

Lemma window_of_max (tbl : list (Z * nat)) (M : Z) :
  Forall (fun p => (fst p <= M)%Z) tbl -> In M (map fst tbl) ->
  match map fst tbl with
  | [] => tbl
  | h0 :: hs =>
      filter (fun p => (zmax h0 hs - 23 * Rs2.HOUR <=? fst p)%Z) tbl
  end
  = filter (fun p => (M - 23 * Rs2.HOUR <=? fst p)%Z) tbl.
Proof.
  intros F I. destruct tbl as [|p tbl]; [contradiction|].
  cbn [map]. rewrite (zmax_spec (M := M)); [reflexivity | | | ].
  - now inversion F.
  - inversion F; subst. now apply Forall_map.
  - destruct I as [I|I]; [now left | now right].
Qed.

Section Hourly.
Variable df : list Rs2.Row.
Variables (t0 : Z) (rest : list Z).
Hypothesis Hts : dropna_num (map Rs2.CreatedDateTimeUTC df) = t0 :: rest.

Local Abbreviation floor := (fun t : Z => (t / Rs2.HOUR * Rs2.HOUR)%Z).
Local Abbreviation lo := (floor (zmin t0 rest)).
Local Abbreviation hi := (floor (zmax t0 rest)).
Local Abbreviation bucket :=
  (fun h : Z => (h, List.length (filter (fun t => (floor t =? h)%Z) (t0 :: rest)))).
Local Abbreviation last_index := (Z.to_nat ((hi - lo) / Rs2.HOUR)).

Lemma hourly_resample :
  resample_size Rs2.HOUR (map Rs2.CreatedDateTimeUTC df)
  = map (fun i => bucket (lo + Z.of_nat i * Rs2.HOUR)%Z) (seq 0 (S last_index)).
Proof. unfold resample_size. rewrite Hts. reflexivity. Qed.

Lemma hourly_last_bucket : (lo + Z.of_nat last_index * Rs2.HOUR = hi)%Z.
Proof.
  pose proof (zmin_le_zmax t0 rest) as L.
  unfold Rs2.HOUR in *.
  rewrite Z2Nat.id; Z.div_mod_to_equations; lia.
Qed.

Lemma hourly_filtered :
  Rs2.hourly df
  = map (fun i => bucket (lo + Z.of_nat i * Rs2.HOUR)%Z)
        (seq (last_index - 23) (S last_index - (last_index - 23))).
Proof.
  unfold Rs2.hourly. rewrite (dropna_num_some _ Hts), hourly_resample.
  pose proof hourly_last_bucket as E.
  set (m := last_index) in *. set (a := lo) in *. set (b := hi) in *.
  rewrite (window_of_max (M := b)).
  - rewrite filter_map_comm, <- filter_seq_ge. f_equal.
    apply filter_ext_in. intros i Hi. apply in_seq in Hi. cbn [fst].
    unfold Rs2.HOUR in *.
    destruct (Nat.leb_spec (m - 23) i);
      [apply Z.leb_le | apply Z.leb_gt]; lia.
  - apply Forall_map, Forall_forall. intros i Hi. apply in_seq in Hi. cbn [fst].
    unfold Rs2.HOUR in *. lia.
  - rewrite map_map. cbn [fst]. apply in_map_iff. exists m. split.
    + exact E.
    + apply in_seq. lia.
Qed.

Lemma hourly_window_eq :
  let n := Nat.min (S last_index) 24 in
  Rs2.hourly df
  = map (fun i => bucket (hi - Z.of_nat (n - 1 - i) * Rs2.HOUR)%Z) (seq 0 n).
Proof.
  intros n. rewrite hourly_filtered.
  pose proof hourly_last_bucket as E.
  set (m := last_index) in *. set (a := lo) in *. set (b := hi) in *.
  replace (S m - (m - 23)) with n by (unfold n; lia).
  rewrite seq_from, map_map. apply map_ext_in. intros i Hi.
  apply in_seq in Hi.
  assert (Hn : m - 23 + n = S m) by (unfold n; lia).
  assert (Hb : (a + Z.of_nat (m - 23 + i) * Rs2.HOUR
                = b - Z.of_nat (n - 1 - i) * Rs2.HOUR)%Z)
    by (unfold Rs2.HOUR in *; lia).
  now rewrite Hb.
Qed.

End Hourly.

(** C3. When at least one timestamp is readable, the hourly series of
    [rs2_dr_dashboard.summarize] is made of the last [n] hourly buckets
    up to and including the bucket [hi] of the latest timestamp in the
    data, one hour apart and without a gap, where [n] is 24 or, when the
    data span fewer hourly buckets, their number; each bucket carries the
    number of scans of that hour. No clock is read. An input that spans
    40 hourly buckets gives exactly the 24 buckets [hi - 23h .. hi]. *)
Theorem hourly_is_last_24_buckets (df : list Rs2.Row) (t0 : Z) (rest : list Z)
  (Hts : dropna_num (map Rs2.CreatedDateTimeUTC df) = t0 :: rest) :
  let floor := fun t : Z => (t / Rs2.HOUR * Rs2.HOUR)%Z in
  let lo := floor (zmin t0 rest) in
  let hi := floor (zmax t0 rest) in
  let span := S (Z.to_nat ((hi - lo) / Rs2.HOUR)) in
  let n := Nat.min span 24 in
  Rs2.hourly df
  = map (fun i =>
           let h := (hi - Z.of_nat (n - 1 - i) * Rs2.HOUR)%Z in
           (h, List.length (filter (fun t => (floor t =? h)%Z) (t0 :: rest))))
        (seq 0 n)
  /\ (span = 40 ->
      List.length (Rs2.hourly df) = 24
      /\ map fst (Rs2.hourly df)
         = map (fun i => (hi - Z.of_nat (23 - i) * Rs2.HOUR)%Z) (seq 0 24)).
Proof.
  intros floor lo hi span n.
  pose proof (hourly_window_eq df Hts) as E. cbv zeta in E.
  fold floor in E. fold lo hi in E. fold span in E. fold n in E.
  split; [exact E|].
  intros S40. assert (Hn : n = 24) by (unfold n; rewrite S40; reflexivity).
  rewrite E, Hn. split.
  - now rewrite length_map, length_seq.
  - rewrite map_map. reflexivity.
Qed.

Lemma hourly_is_last_24_buckets_witness :
  let df := Rs2.load_data
              [Rs2.sample_csv NaN NaN (Str "CA") (Some 0%Z);
               Rs2.sample_csv NaN NaN (Str "CA") None;
               Rs2.sample_csv NaN NaN (Str "TX") (Some (39 * Rs2.HOUR + 5)%Z)] in
  List.length (Rs2.hourly df) = 24
  /\ map fst (Rs2.hourly df)
     = map (fun i => (39 * Rs2.HOUR - Z.of_nat (23 - i) * Rs2.HOUR)%Z) (seq 0 24).
Proof.
  intros df.
  assert (Hts : dropna_num (map Rs2.CreatedDateTimeUTC df)
                = [0%Z; (39 * Rs2.HOUR + 5)%Z]) by reflexivity.
  pose proof (hourly_is_last_24_buckets df Hts) as [_ H40].
  apply H40. vm_compute. reflexivity.
Defined.

(** ** Records without a state *)

Lemma filter_filter_implied {A} (p q : A -> bool) (l : list A) :
  (forall x, p x = true -> q x = true) ->
  filter p (filter q l) = filter p l.
Proof.
  intros I. induction l as [|x l IH]; simpl; [reflexivity|].
  destruct (q x) eqn:Q; simpl.
  - now rewrite IH.
  - destruct (p x) eqn:P; [apply I in P; congruence | exact IH].
Qed.

Section Rs2States.
Import Rs2.
Variable df : list Row.

Local Abbreviation st := (fun r : Row => match State r with Str s => [s] | _ => [] end).

Lemma rs2_states_flat (rows : list Row) :
  dropna (map State rows) = flat_map st rows.
Proof.
  induction rows as [|r rows IH]; simpl; [reflexivity|].
  rewrite IH. now destruct (State r).
Qed.

Lemma rs2_states_with_state (rows : list Row) :
  flat_map st (filter (fun r => negb (isna (State r))) rows) = flat_map st rows.
Proof.
  induction rows as [|r rows IH]; simpl; [reflexivity|].
  destruct (State r) eqn:E; simpl; rewrite ?E, IH; reflexivity.
Qed.

Lemma rs2_occ_states (s : string) (rows : list Row) :
  occ s (flat_map st rows)
  = List.length (filter (fun r => keqb (State r) (Str s)) rows).
Proof.
  induction rows as [|r rows IH].
  - reflexivity.
  - cbn [flat_map filter]. rewrite occ_app, IH.
    destruct (State r) as [s'| | |]; try reflexivity.
    rewrite occ_cons, occ_nil.
    change (keqb (Str s') (Str s)) with (String.eqb s' s).
    change (keqb s s') with (String.eqb s s').
    rewrite (String.eqb_sym s s').
    destruct (String.eqb s' s); cbn [List.length]; lia.
Qed.

Lemma rs2_states_length (rows : list Row) :
  List.length (flat_map st rows)
  = List.length (filter (fun r => negb (isna (State r))) rows).
Proof.
  induction rows as [|r rows IH]; simpl; [reflexivity|].
  destruct (State r); simpl; now rewrite IH.
Qed.

Lemma rs2_state_counts_perm :
  Permutation (state_counts df) (count_first (flat_map st df)).
Proof.
  unfold state_counts.
  rewrite sort_values_desc_perm, rs2_states_flat, rs2_states_with_state.
  apply groupby_size_perm.
Qed.

Lemma rs2_state_counts_rows (s : string) (n : nat) :
  In (s, n) (scans_by_state df)
  <-> n = List.length (filter (fun r => keqb (State r) (Str s)) df) /\ 0 < n.
Proof.
  unfold scans_by_state.
  rewrite (table_In _ rs2_state_counts_perm), rs2_occ_states. reflexivity.
Qed.

Lemma rs2_state_counts_total :
  total (scans_by_state df)
  = List.length (filter (fun r => negb (isna (State r))) df).
Proof.
  unfold scans_by_state.
  rewrite (table_total _ rs2_state_counts_perm). apply rs2_states_length.
Qed.

Lemma rs2_repeat_users_by_state_rows (s : string) (n : nat) :
  In (s, n) (repeat_users_by_state df) ->
  (exists r, In r df /\ State r = Str s)
  /\ n = nunique (dropna (map UserId
           (filter (fun r => keqb (State r) (Str s))
              (filter (fun r => match UserId r with
                                | Str u => isin u (repeat_accounts df)
                                | _ => false
                                end) df)))).
Proof.
  unfold repeat_users_by_state. intros I.
  apply in_map_iff in I as ([s' c] & [= -> <-] & I). cbn [fst]. split.
  - apply (in_map fst) in I. cbn [fst] in I.
    match type of I with
    | In _ (map fst (groupby_size ?L)) =>
        apply (proj1 (table_keys L (groupby_size_perm L) s)) in I
    end.
    apply In_dropna, in_map_iff in I as (r & E & I).
    apply filter_In in I as [I _]. apply filter_In in I as [I _]. now exists r.
  - rewrite filter_filter_implied; [reflexivity|].
    intros r E.
    pose proof (proj1 (keqb_eq (State r) (Str s)) E) as E'. now rewrite E'.
Qed.

End Rs2States.

Section ScanRecordsNullStates.
Import ScanRecords.
Variable df : list Row.

Local Abbreviation st := (fun r : Row => match State r with Str s => [s] | _ => [] end).
Local Abbreviation has s := (fun r : Row => keqb (State r) (Str s)).
Local Abbreviation is_repeat := (fun r : Row => cell_isin (AccountKey r) (repeat_user_ids df)).

Lemma sr_state_summary_rows :
  Forall (fun row =>
            ss_total_scans row = List.length (filter (has (ss_state row)) df)
            /\ 0 < ss_total_scans row
            /\ ss_repeat_scans row
               = List.length (filter (has (ss_state row)) (filter is_repeat df)))
         (state_summary df).
Proof.
  unfold state_summary. apply Forall_map, Forall_forall. intros [s n] I.
  apply (table_In _ (sr_state_counts_perm df)) in I as [-> Hpos].
  cbn [fst snd ss_total_scans ss_state ss_repeat_scans].
  split; [apply sr_occ_states | split; [assumption|]].
  unfold repeat_state_counts.
  erewrite sr_get_count by apply groupby_size_perm.
  rewrite sr_states_flat. apply sr_occ_states.
Qed.

Lemma sr_states_length_eq (rows : list Row) :
  List.length (flat_map st rows) = List.length (with_state rows).
Proof.
  induction rows as [|r rows IH]; simpl; [reflexivity|].
  destruct (State r); simpl; now rewrite IH.
Qed.

Lemma sr_state_summary_total :
  list_sum (map ss_total_scans (state_summary df)) = List.length (with_state df).
Proof.
  unfold state_summary. rewrite map_map. cbn [ss_total_scans].
  change (list_sum (map (fun p => snd p) (state_counts df)))
    with (total (state_counts df)).
  rewrite (table_total _ (sr_state_counts_perm df)). apply sr_states_length_eq.
Qed.

Lemma sr_repeat_user_state_rows :
  map (fun row => (rs_state row, rs_repeat_users row)) (repeat_user_state df)
  = map (fun p => (fst p,
                   List.length (filter (has (fst p))
                                       (filter is_repeat (user_state df)))))
        (state_counts df).
Proof.
  unfold repeat_user_state. rewrite map_map. cbn [rs_state rs_repeat_users].
  rewrite <- (map_map fst (fun q => (fst (fst q), snd q))).
  rewrite keys_combine.
  - rewrite sr_repeat_users_column, map_map. cbn [fst snd].
    apply map_ext. intros p. now rewrite sr_occ_states.
  - rewrite sr_share_in_state_column, repeat_length, length_combine.
    apply Nat.le_min_l.
Qed.

End ScanRecordsNullStates.

(** ** The empty input *)

(** C9. With no data row, every card of both scripts is 0 (counts, means
    and shares alike), every ranked table and every per-state table is
    empty, and nothing fails on the way. The mean of a column that is
    empty or holds only missing values is 0. *)
Theorem empty_input_summary (n : nat) :
  (Rs2.load_data [] = []
   /\ Forall (fun m => value m = 0%Q) (Rs2.cards [])
   /\ List.length (Rs2.cards []) = 11
   /\ Rs2.top_vehicles [] = []
   /\ Rs2.top_usb [] = []
   /\ Rs2.mil_dtc_df [] = []
   /\ Rs2.abs_parts [] = []
   /\ Rs2.srs_parts [] = []
   /\ Rs2.scans_by_state [] = []
   /\ Rs2.top_states [] = []
   /\ Rs2.hourly [] = []
   /\ Rs2.repeat_users_by_state [] = [])
  /\ (ScanRecords.load_data [] = []
      /\ Forall (fun m => value m = 0%Q) (ScanRecords.summary [])
      /\ List.length (ScanRecords.summary []) = 8
      /\ ScanRecords.state_summary [] = []
      /\ ScanRecords.repeat_user_state [] = []
      /\ ScanRecords.top_states (ScanRecords.state_summary []) = [])
  /\ Rs2.safe_mean [] = 0%Q
  /\ Rs2.safe_mean (repeat None n) = 0%Q.
Proof.
  split; [|split; [|split]].
  - repeat split; repeat constructor.
  - repeat split; repeat constructor.
  - reflexivity.
  - unfold Rs2.safe_mean.
    replace (dropna_num (repeat (@None Q) n)) with (@nil Q); [reflexivity|].
    induction n as [|n IH]; simpl; [reflexivity | exact IH].
Qed.

(* ================================================================== *)
(** * Further properties of the two scripts *)
(* ================================================================== *)

(** ** Trimming *)

Section StripFacts.

Local Abbreviation no_lead :=
  (fun s : string =>
     match s with String c _ => Py.is_space c = false | EmptyString => True end).

Lemma lstrip_no_lead (s : string) : no_lead (Py.lstrip s).
Proof.
  induction s as [|c s IH]; simpl; [exact I|].
  destruct (Py.is_space c) eqn:E; [exact IH | exact E].
Qed.

Lemma lstrip_fixed (s : string) : no_lead s -> Py.lstrip s = s.
Proof.
  destruct s as [|c s]; simpl; [reflexivity|]. now intros ->.
Qed.

Lemma rstrip_no_lead (s : string) : no_lead s -> no_lead (Py.rstrip s).
Proof.
  destruct s as [|c s]; simpl; [trivial|]. intros E.
  destruct (Py.rstrip s); [rewrite E|]; exact E.
Qed.

Lemma rstrip_idem (s : string) : Py.rstrip (Py.rstrip s) = Py.rstrip s.
Proof.
  induction s as [|c s IH]; simpl; [reflexivity|].
  destruct (Py.rstrip s) as [|d r] eqn:R.
  - destruct (Py.is_space c) eqn:E; simpl; [reflexivity | now rewrite E].
  - change (Py.rstrip (String c (String d r)))
      with (match Py.rstrip (String d r) with
            | EmptyString =>
                if Py.is_space c then EmptyString else String c EmptyString
            | String a t => String c (String a t)
            end).
    rewrite IH. reflexivity.
Qed.

(** [strip] is idempotent: a trimmed string is a fixed point. *)
Lemma strip_idem (s : string) : Py.strip (Py.strip s) = Py.strip s.
Proof.
  unfold Py.strip.
  rewrite (lstrip_fixed _ (rstrip_no_lead _ (lstrip_no_lead s))).
  apply rstrip_idem.
Qed.

End StripFacts.

Lemma truthy_nonempty (s : string) : Py.truthy s = true <-> s <> EmptyString.
Proof. destruct s; simpl; split; congruence. Qed.

Lemma spec_tokens_clean (series : list cell) (k : string) :
  In k (spec_tokens series) -> k <> EmptyString /\ Py.strip k = k.
Proof.
  unfold spec_tokens. intros I.
  apply in_flat_map in I as (raw & _ & I).
  apply filter_In in I as [I T]. apply in_map_iff in I as (part & <- & _).
  split; [now apply truthy_nonempty | apply strip_idem].
Qed.

(** X1. Every part name that [explode_parts] counts is trimmed and not
    empty: no key of the counter is blank, and none begins or ends with
    white space. *)
Theorem explode_parts_keys_trimmed (series : list cell) :
  Forall (fun p => fst p <> EmptyString /\ Py.strip (fst p) = fst p)
         (Rs2.explode_parts series).
Proof.
  apply Forall_forall. intros [k n] I. cbn [fst].
  rewrite explode_parts_count_first in I.
  apply (in_map fst) in I. cbn [fst] in I.
  apply (proj1 (keys_count_first_In k (spec_tokens series))) in I.
  now apply spec_tokens_clean in I.
Qed.

(** X2. [explode_parts] loses and invents no mention: the counts of the
    counter add up to the number of non-empty trimmed pieces of the
    present cells, and every count is at least 1. *)
Theorem explode_parts_conserves_mentions (series : list cell) :
  total (Rs2.explode_parts series) = List.length (spec_tokens series)
  /\ Forall (fun p => 1 <= snd p) (Rs2.explode_parts series).
Proof.
  rewrite explode_parts_count_first. split.
  - apply total_count_first.
  - apply Forall_forall. intros [k n] I. apply In_count_first in I. simpl. lia.
Qed.

(** ** The rows a ranked table keeps *)

Section TopFacts.
Context {A : Type}.

Lemma StronglySorted_app_cross (R : A -> A -> Prop) (l1 l2 : list A) :
  StronglySorted R (l1 ++ l2) ->
  forall a b, In a l1 -> In b l2 -> R a b.
Proof.
  induction l1 as [|x l1 IH]; simpl; intros S a b Ia Ib; [contradiction|].
  inversion S as [|? ? S' F]; subst. destruct Ia as [->|Ia].
  - rewrite Forall_forall in F. apply F. apply in_or_app. now right.
  - now apply IH.
Qed.

Lemma StronglySorted_trivial (l : list A) : StronglySorted (fun _ _ => True) l.
Proof.
  induction l as [|x l IH]; constructor; [assumption|].
  apply Forall_forall. trivial.
Qed.

Lemma NoDup_firstn (n : nat) : forall l : list A, NoDup l -> NoDup (firstn n l).
Proof.
  induction n as [|n IH]; intros [|x l] ND; simpl; try constructor.
  - inversion ND; subst. intros I. apply In_firstn_In in I. contradiction.
  - inversion ND; subst. now apply IH.
Qed.

(** The rows that [nlargest] (or a sort by descending count followed by
    [head]) leaves out never have a larger count than a row it keeps. *)
Lemma nlargest_is_top (cnt : A -> nat) (n : nat) (l : list A) (a b : A) :
  In a (nlargest cnt n l) -> In b l ->
  In b (nlargest cnt n l) \/ cnt b <= cnt a.
Proof.
  unfold nlargest. intros Ia Ib.
  pose proof (sort_values_desc_sorted cnt (StronglySorted_trivial l)) as S.
  apply (Permutation_in _ (Permutation_sym (sort_values_desc_perm cnt l))) in Ib.
  rewrite <- (firstn_skipn n (sort_values_desc cnt l)) in Ib, S.
  apply in_app_or in Ib as [Ib|Ib]; [now left | right].
  apply (ranked_count_le (cnt := cnt) (before := fun _ _ => True)).
  exact (StronglySorted_app_cross _ _ S _ _ Ia Ib).
Qed.

End TopFacts.

Section TopTables.
Context {K : Type} `{KeyLaws K}.
Variable col : list K.
Variable tbl0 : list (K * nat).
Hypothesis Htbl : Permutation tbl0 (count_first col).
Variable n : nat.

(** A ranked table taken from a frequency table: its rows carry the true
    counts, no key twice, and any key of the column that is left out
    occurs at most as often as each key that is kept. *)
Lemma top_table_rows :
  Forall (fun row => In (fst row) col /\ snd row = occ (fst row) col)
         (firstn n (sort_values_desc snd tbl0))
  /\ NoDup (map fst (firstn n (sort_values_desc snd tbl0)))
  /\ forall v row,
       In v col -> In row (firstn n (sort_values_desc snd tbl0)) ->
       In v (map fst (firstn n (sort_values_desc snd tbl0)))
       \/ occ v col <= snd row.
Proof.
  assert (P : Permutation (sort_values_desc snd tbl0) (count_first col)).
  { now rewrite sort_values_desc_perm. }
  split; [|split].
  - apply Forall_forall. intros [k c] I. apply In_firstn_In in I.
    apply (table_In col P) in I as [-> Hpos]. cbn [fst snd].
    split; [now apply occ_pos | reflexivity].
  - rewrite <- firstn_map. apply NoDup_firstn, (table_NoDup col P).
  - intros v row Iv Irow.
    assert (Ib : In (v, occ v col) tbl0).
    { apply (table_In col Htbl). split; [reflexivity | now apply occ_pos]. }
    destruct (nlargest_is_top snd n tbl0 row (v, occ v col) Irow Ib) as [I|L].
    + left. apply (in_map fst) in I. exact I.
    + right. exact L.
Qed.

End TopTables.

Lemma rs2_states_of_with_state (df : list Rs2.Row) :
  dropna (map Rs2.State (filter (fun r => negb (isna (Rs2.State r))) df))
  = dropna (map Rs2.State df).
Proof. now rewrite !rs2_states_flat, rs2_states_with_state. Qed.

(** X3. The top vehicles, top scan tools and top states of
    [rs2_dr_dashboard] really are the most frequent ones: every row is a
    value of the column with its true number of occurrences, no value
    comes twice, and a value that is left out of a table occurs at most as
    often as each value in it. *)
Theorem rs2_top_tables_most_frequent (df : list Rs2.Row) :
  top_of (dropna (map Rs2.Vehicle df)) (Rs2.top_vehicles df)
  /\ top_of (dropna_num (map Rs2.UsbProductId df)) (Rs2.top_usb df)
  /\ top_of (dropna (map Rs2.State df)) (Rs2.top_states df).
Proof.
  split; [|split].
  - apply top_table_rows. reflexivity.
  - apply top_table_rows. reflexivity.
  - unfold Rs2.top_states, Rs2.scans_by_state, Rs2.state_counts.
    apply top_table_rows. rewrite rs2_states_of_with_state.
    apply groupby_size_perm.
Qed.

(** X4. The ABS and SRS part tables are [Counter.most_common(10)] of the
    exploded part names: at most 10 rows, most frequent names first, names
    of equal count in the order they were first met, each with its true
    number of mentions, and no name left out is mentioned more often than
    a name listed. *)
Theorem parts_tables_ranked (df : list Rs2.Row) :
  (List.length (Rs2.abs_parts df) <= 10
   /\ StronglySorted
        (ranked snd (fun a b =>
           first_seen (spec_tokens (map Rs2.ABS_Part_Name df)) (fst a) (fst b)))
        (Rs2.abs_parts df)
   /\ top_of (spec_tokens (map Rs2.ABS_Part_Name df)) (Rs2.abs_parts df))
  /\ (List.length (Rs2.srs_parts df) <= 10
      /\ StronglySorted
           (ranked snd (fun a b =>
              first_seen (spec_tokens (map Rs2.SRS_Part_Name df)) (fst a) (fst b)))
           (Rs2.srs_parts df)
      /\ top_of (spec_tokens (map Rs2.SRS_Part_Name df)) (Rs2.srs_parts df)).
Proof.
  unfold Rs2.abs_parts, Rs2.srs_parts, most_common.
  rewrite !explode_parts_count_first.
  split; (split; [apply firstn_le_length | split]).
  - apply StronglySorted_firstn, value_counts_ranked.
  - apply top_table_rows. reflexivity.
  - apply StronglySorted_firstn, value_counts_ranked.
  - apply top_table_rows. reflexivity.
Qed.

(** X5. [top_mil_dtc] with any [limit]: at most [limit] rows, one per
    diagnostic code; the Scans of a row is the number of present MIL DTC
    cells whose trimmed text is the code, at least 1; a code that is left
    out occurs at most as often as each code listed; and a code none of
    whose rows names a part shows ["n/a"]. *)
Theorem top_mil_dtc_rows (df : list Rs2.Row) (limit : nat) :
  let codes := map Py.strip (dropna (map Rs2.MIL_DTC df)) in
  let rows := Rs2.top_mil_dtc df limit in
  List.length rows <= limit
  /\ top_of codes (map (fun row => (Rs2.md_MIL_DTC row, Rs2.md_Scans row)) rows)
  /\ Forall (fun row => 1 <= Rs2.md_Scans row) rows
  /\ Forall (fun row =>
               spec_tokens
                 (map Rs2.MIL_Part_Name
                    (filter (fun r => String.eqb
                                        (Py.strip (astype_str (Rs2.MIL_DTC r)))
                                        (Rs2.md_MIL_DTC row)) df)) = []
               -> Rs2.md_Top_Parts row = "n/a"%string)
            rows.
Proof.
  intros codes rows. unfold rows, Rs2.top_mil_dtc. fold codes.
  split; [|split; [|split]].
  - rewrite length_map. apply head_length.
  - rewrite map_map. cbn [Rs2.md_MIL_DTC Rs2.md_Scans].
    rewrite (map_ext _ (fun p => p)) by (now intros [k c]). rewrite map_id.
    apply top_table_rows. reflexivity.
  - apply Forall_map, Forall_forall. intros [k c] I. cbn [Rs2.md_Scans snd].
    apply In_firstn_In in I.
    apply (table_In codes (value_counts_perm codes)) in I. lia.
  - apply Forall_map, Forall_forall. intros [k c] _.
    cbn [Rs2.md_MIL_DTC Rs2.md_Top_Parts fst]. intros E.
    rewrite explode_parts_count_first, E. reflexivity.
Qed.

Lemma top_mil_dtc_rows_witness :
  let df := Rs2.load_data [Rs2.sample_dtc_csv (Str " P0420 ") (Str " ; ");
                           Rs2.sample_dtc_csv NaN (Str "O2 sensor")] in
  map Rs2.md_Top_Parts (Rs2.top_mil_dtc df 3) = ["n/a"%string].
Proof.
  intros df.
  pose proof (top_mil_dtc_rows df 3) as (_ & _ & _ & H). cbv zeta in H.
  assert (E : Rs2.top_mil_dtc df 3
              = [ {| Rs2.md_MIL_DTC := "P0420"; Rs2.md_Scans := 1;
                     Rs2.md_Top_Parts := "n/a" |} ]) by reflexivity.
  rewrite E in H. inversion H as [|? ? Hrow _]; subst.
  rewrite E. cbn [map]. rewrite (Hrow eq_refl). reflexivity.
Defined.

(** ** Users *)

Lemma user_id_shape (c : cell) :
  match Rs2.user_id c with
  | Str s => s <> EmptyString /\ s <> "nan"%string /\ Py.strip s = s
  | NA => True
  | _ => False
  end.
Proof.
  unfold Rs2.user_id.
  destruct (isin (Py.strip (astype_str c)) [""%string; "nan"%string]) eqn:E;
    [exact I|].
  apply isin_false in E. simpl in E.
  repeat split; try (intros Eq; apply E; rewrite Eq; tauto).
  apply strip_idem.
Qed.

Lemma rs2_user_column (csv : list Rs2.Csv) :
  dropna (map Rs2.UserId (Rs2.load_data csv))
  = flat_map (fun r => match Rs2.user_id (Rs2.csv_AccountId r) with
                       | Str s => [s]
                       | _ => []
                       end) csv.
Proof.
  induction csv as [|r csv IH]; simpl; [reflexivity|]. now rewrite IH.
Qed.

(** X6. In [rs2_dr_dashboard] a missing or blank AccountId is never
    counted as a user: after [load_data], every key of the user counts is
    a trimmed, non-empty text other than ["nan"], and the counts add up to
    the number of rows whose trimmed AccountId is neither empty nor
    ["nan"]. *)
Theorem rs2_users_are_real_ids (csv : list Rs2.Csv) :
  Forall (fun p => fst p <> EmptyString /\ fst p <> "nan"%string
                   /\ Py.strip (fst p) = fst p)
         (Rs2.user_counts (Rs2.load_data csv))
  /\ total (Rs2.user_counts (Rs2.load_data csv))
     = List.length
         (filter (fun r => negb (isin (Py.strip (astype_str (Rs2.csv_AccountId r)))
                                      [""%string; "nan"%string])) csv).
Proof.
  unfold Rs2.user_counts. split.
  - apply Forall_forall. intros [k n] I. cbn [fst].
    apply (in_map fst) in I. cbn [fst] in I.
    match type of I with
    | In _ (map fst (value_counts ?L)) =>
        apply (proj1 (table_keys L (value_counts_perm L) k)) in I
    end.
    rewrite rs2_user_column in I. apply in_flat_map in I as (r & _ & I).
    pose proof (user_id_shape (Rs2.csv_AccountId r)) as S.
    destruct (Rs2.user_id (Rs2.csv_AccountId r)); try contradiction.
    destruct I as [->|[]]. exact S.
  - rewrite (table_total _ (value_counts_perm _)), rs2_user_column.
    induction csv as [|r csv IH]; [reflexivity|].
    cbn [flat_map filter]. rewrite length_app, IH. unfold Rs2.user_id.
    destruct (isin _ _); reflexivity.
Qed.

Lemma scan_records_key_column (csv : list ScanRecords.Csv) :
  List.length (dropna (map ScanRecords.AccountKey (ScanRecords.load_data csv)))
  = List.length csv.
Proof.
  induction csv as [|r csv IH]; [reflexivity|].
  cbn [ScanRecords.load_data map]. unfold ScanRecords.load_row at 1.
  cbn [ScanRecords.AccountKey]. unfold ScanRecords.where_.
  destruct (ScanRecords.ne_empty _); cbn [dropna flat_map app List.length];
    fold (dropna (map ScanRecords.AccountKey (map ScanRecords.load_row csv)));
    f_equal; exact IH.
Qed.

Section UniqueZero.
Context {K : Type} `{KeyLaws K}.

Lemma nunique_le_length (l : list K) : nunique l <= List.length l.
Proof.
  unfold nunique. apply NoDup_incl_length; [apply unique_NoDup|].
  intros k. apply unique_In.
Qed.

Lemma nunique_zero (l : list K) : nunique l = 0 <-> l = [].
Proof.
  split; [|now intros ->].
  destruct l as [|x l]; [reflexivity|]. unfold nunique. intros E.
  apply length_zero_iff_nil in E.
  assert (I : In x (unique (x :: l))) by (apply unique_In; now left).
  rewrite E in I. contradiction.
Qed.

End UniqueZero.

(** X7. In [scan_records_dashboard] every row has a user key after
    [load_data] (a text, never a null), so the per-user scan counts of
    [summarize] add up to the number of rows read, and there is no user
    exactly when there is no row. *)
Theorem scan_records_every_row_has_a_user (csv : list ScanRecords.Csv) :
  Forall (fun r => isna (ScanRecords.AccountKey r) = false)
         (ScanRecords.load_data csv)
  /\ total (ScanRecords.user_counts (ScanRecords.load_data csv)) = List.length csv
  /\ (ScanRecords.unique_users (ScanRecords.load_data csv) = 0 <-> csv = []).
Proof.
  split; [|split].
  - apply Forall_map, Forall_forall. intros r _.
    unfold ScanRecords.load_row, ScanRecords.where_. cbn [ScanRecords.AccountKey].
    now destruct (ScanRecords.ne_empty _).
  - unfold ScanRecords.user_counts.
    rewrite (table_total _ (groupby_size_perm _)). apply scan_records_key_column.
  - unfold ScanRecords.unique_users, ScanRecords.user_counts.
    rewrite (table_length _ (groupby_size_perm _)), count_first_length, nunique_zero.
    rewrite <- length_zero_iff_nil, scan_records_key_column.
    apply length_zero_iff_nil.
Qed.

(** ** Repeat users *)

Lemma repeat_rows_twice {K} (tbl : list (K * nat)) :
  2 * List.length (filter (fun p => 1 <? snd p) tbl)
  <= total (filter (fun p => 1 <? snd p) tbl).
Proof.
  unfold total. induction tbl as [|[k c] tbl IH]; [simpl; lia|].
  cbn [filter snd]. destruct (Nat.ltb_spec 1 c); cbn [map List.length snd];
    try match goal with
        | |- context [list_sum (?x :: ?l)] =>
            change (list_sum (x :: l)) with (x + list_sum l)
        end; lia.
Qed.

Lemma repeat_pairs_twice {K} (tbl : list (K * nat)) :
  2 * List.length (filter (fun p => 2 <=? snd p) tbl)
  <= total (filter (fun p => 2 <=? snd p) tbl).
Proof.
  unfold total. induction tbl as [|[k c] tbl IH]; [simpl; lia|].
  cbn [filter snd]. destruct (Nat.leb_spec 2 c); cbn [map List.length snd];
    try match goal with
        | |- context [list_sum (?x :: ?l)] =>
            change (list_sum (x :: l)) with (x + list_sum l)
        end; lia.
Qed.

Lemma scan_records_occ_keys (u : string) (df : list ScanRecords.Row) :
  occ u (dropna (map ScanRecords.AccountKey df))
  = List.length (filter (fun r => keqb (ScanRecords.AccountKey r) (Str u)) df).
Proof.
  induction df as [|r df IH]; [reflexivity|].
  cbn [map filter]. destruct (ScanRecords.AccountKey r) as [s| | |];
    cbn [dropna flat_map app];
    fold (dropna (map ScanRecords.AccountKey df)); try exact IH.
  rewrite occ_cons, IH.
  change (keqb (Str s) (Str u)) with (String.eqb s u).
  change (keqb u s) with (String.eqb u s).
  rewrite (String.eqb_sym u s).
  destruct (String.eqb s u); cbn [List.length]; lia.
Qed.

(** X8. In [scan_records_dashboard] the repeat users are exactly the keys
    that two or more rows carry, so each repeat user accounts for at least
    two of the repeat-user scans. *)
Theorem scan_records_repeat_users_scan_twice (df : list ScanRecords.Row) :
  (forall u, In u (ScanRecords.repeat_user_ids df)
             <-> 2 <= List.length
                        (filter (fun r => keqb (ScanRecords.AccountKey r) (Str u)) df))
  /\ 2 * ScanRecords.repeat_users df <= ScanRecords.repeat_user_scans df.
Proof.
  split.
  - intros u. unfold ScanRecords.repeat_user_ids, ScanRecords.repeat_user_counts,
      ScanRecords.user_counts.
    rewrite <- scan_records_occ_keys.
    set (keys := dropna (map ScanRecords.AccountKey df)).
    pose proof (groupby_size_perm keys) as P. split.
    + intros I. apply in_map_iff in I as ([k c] & E & I). cbn [fst] in E. subst k.
      apply filter_In in I as [I L]. apply (table_In keys P) in I as [-> _].
      cbn [snd] in L. apply Nat.ltb_lt in L. lia.
    + intros L. apply in_map_iff. exists (u, occ u keys). split; [reflexivity|].
      apply filter_In. split.
      * apply (table_In keys P). lia.
      * cbn [snd]. apply Nat.ltb_lt. lia.
  - unfold ScanRecords.repeat_users, ScanRecords.repeat_user_scans,
      ScanRecords.repeat_user_counts. apply repeat_rows_twice.
Qed.

Lemma rs2_occ_pairs (u v : string) (df : list Rs2.Row) :
  occ (u, v)
      (flat_map (fun r => match Rs2.UserId r, Rs2.VIN r with
                          | Str a, Str b => [(a, b)]
                          | _, _ => []
                          end) df)
  = List.length
      (filter (fun r => keqb (Rs2.UserId r) (Str u) && keqb (Rs2.VIN r) (Str v)) df).
Proof.
  induction df as [|r df IH]; [reflexivity|].
  cbn [flat_map filter]. rewrite occ_app, IH.
  destruct (Rs2.UserId r) as [a| | |]; try reflexivity.
  destruct (Rs2.VIN r) as [b| | |];
    try (rewrite occ_nil; cbn [keqb Key_cell cell_eqb];
         rewrite andb_false_r; reflexivity).
  rewrite occ_cons, occ_nil.
  change (keqb (Str a) (Str u)) with (String.eqb a u).
  change (keqb (Str b) (Str v)) with (String.eqb b v).
  change (keqb (u, v) (a, b)) with (String.eqb u a && String.eqb v b).
  rewrite (String.eqb_sym u a), (String.eqb_sym v b).
  destruct (String.eqb a u && String.eqb b v); cbn [List.length]; lia.
Qed.

Lemma rs2_pairs_length (df : list Rs2.Row) :
  List.length (flat_map (fun r => match Rs2.UserId r, Rs2.VIN r with
                                  | Str a, Str b => [(a, b)]
                                  | _, _ => []
                                  end) df)
  <= List.length df.
Proof.
  induction df as [|r df IH]; simpl; [lia|].
  destruct (Rs2.UserId r); simpl; try lia.
  destruct (Rs2.VIN r); simpl; lia.
Qed.

(** X9. In [rs2_dr_dashboard] the repeat accounts are exactly the users
    that scanned one and the same VIN in two or more rows; each of them
    therefore accounts for at least two scans. *)
Theorem rs2_repeat_accounts_scan_a_vin_twice (df : list Rs2.Row) :
  (forall u, In u (Rs2.repeat_accounts df)
             <-> exists v,
                 2 <= List.length
                        (filter (fun r => keqb (Rs2.UserId r) (Str u)
                                          && keqb (Rs2.VIN r) (Str v)) df))
  /\ 2 * Rs2.repeat_user_count df <= Rs2.total_scans df.
Proof.
  unfold Rs2.repeat_user_count, Rs2.repeat_accounts, Rs2.repeat_pairs.
  set (pairs := flat_map _ df).
  pose proof (groupby_size_perm pairs) as P. split.
  - intros u. rewrite unique_In. split.
    + intros I. apply in_map_iff in I as ([[a v] c] & E & I). cbn [fst] in E.
      subst a. apply filter_In in I as [I L].
      apply (table_In pairs P) in I as [-> _]. cbn [snd] in L.
      apply Nat.leb_le in L. exists v. unfold pairs in L.
      now rewrite rs2_occ_pairs in L.
    + intros (v & L). rewrite <- rs2_occ_pairs in L. fold pairs in L.
      apply in_map_iff. exists (u, v, occ (u, v) pairs). split; [reflexivity|].
      apply filter_In. split.
      * apply (table_In pairs P). lia.
      * cbn [snd]. now apply Nat.leb_le.
  - unfold Rs2.total_scans.
    etransitivity;
      [apply Nat.mul_le_mono_l; etransitivity;
         [apply nunique_le_length | rewrite length_map; apply Nat.le_refl]|].
    etransitivity; [apply repeat_pairs_twice|].
    etransitivity; [apply total_filter_le|].
    rewrite (table_total pairs P). apply rs2_pairs_length.
Qed.

(** X10. Distinct counts never exceed the number of rows: in
    [rs2_dr_dashboard] the unique VINs and the scanned users are at most
    the total scans; in [scan_records_dashboard] the unique users and the
    unique VINs are at most the total scans, and the VINs scanned several
    times are at most the unique VINs. *)
Theorem distinct_counts_bounded (rs2 : list Rs2.Row) (sr : list ScanRecords.Row) :
  Rs2.unique_vins rs2 <= Rs2.total_scans rs2
  /\ Rs2.total_scanned_users rs2 <= Rs2.total_scans rs2
  /\ ScanRecords.unique_users sr <= ScanRecords.total_scans sr
  /\ ScanRecords.unique_vins sr <= ScanRecords.total_scans sr
  /\ ScanRecords.repeat_vins sr <= ScanRecords.unique_vins sr.
Proof.
  assert (D : forall col : list cell, nunique (dropna col) <= List.length col).
  { intros col. etransitivity; [apply nunique_le_length | apply dropna_length_le]. }
  repeat split.
  - unfold Rs2.unique_vins, Rs2.total_scans.
    rewrite <- (length_map Rs2.VIN). apply D.
  - rewrite rs2_total_scanned_users. unfold Rs2.total_scans.
    rewrite <- (length_map Rs2.UserId). apply D.
  - unfold ScanRecords.unique_users, ScanRecords.user_counts, ScanRecords.total_scans.
    rewrite (table_length _ (groupby_size_perm _)), count_first_length.
    rewrite <- (length_map ScanRecords.AccountKey). apply D.
  - unfold ScanRecords.unique_vins, ScanRecords.vin_counts, ScanRecords.total_scans.
    rewrite (table_length _ (value_counts_perm _)), count_first_length.
    rewrite <- (length_map ScanRecords.VIN). apply D.
  - apply filter_length_le.
Qed.

(** ** State tables *)

Lemma sr_normalize_state_shape (c : cell) :
  match ScanRecords.normalize_state c with
  | Str s => Py.fullmatch_AZ2 s = true
  | NA => True
  | _ => False
  end.
Proof.
  unfold ScanRecords.normalize_state.
  destruct (Py.fullmatch_AZ2 (Py.upper (Py.strip (astype_str c)))) eqn:M;
    [exact M | exact I].
Qed.

Lemma rs2_loaded_state_valid (csv : list Rs2.Csv) (s : string) :
  In s (dropna (map Rs2.State (Rs2.load_data csv))) -> Py.fullmatch_AZ2 s = true.
Proof.
  intros I. apply In_dropna, in_map_iff in I as (r & E & I).
  apply in_map_iff in I as (c & <- & _). cbn [Rs2.load_row Rs2.State] in E.
  pose proof (normalize_state_shape (Rs2.csv_State c)) as S.
  rewrite E in S. exact S.
Qed.

Lemma sr_loaded_state_valid (csv : list ScanRecords.Csv) (s : string) :
  In s (dropna (map ScanRecords.State (ScanRecords.load_data csv))) ->
  Py.fullmatch_AZ2 s = true.
Proof.
  intros I. apply In_dropna, in_map_iff in I as (r & E & I).
  apply in_map_iff in I as (c & <- & _).
  cbn [ScanRecords.load_row ScanRecords.State] in E.
  pose proof (sr_normalize_state_shape (ScanRecords.csv_State c)) as S.
  rewrite E in S. exact S.
Qed.

(** X11. After [load_data], the per-state tables of both scripts have one
    row per state and every state is a code of exactly two upper-case
    letters; in [scan_records_dashboard] the two per-state frames list the
    same states in the same order. *)
Theorem state_tables_have_valid_codes
  (rs2_csv : list Rs2.Csv) (sr_csv : list ScanRecords.Csv) :
  (Forall (fun p => Py.fullmatch_AZ2 (fst p) = true)
          (Rs2.scans_by_state (Rs2.load_data rs2_csv))
   /\ NoDup (map fst (Rs2.scans_by_state (Rs2.load_data rs2_csv))))
  /\ (Forall (fun row => Py.fullmatch_AZ2 (ScanRecords.ss_state row) = true)
             (ScanRecords.state_summary (ScanRecords.load_data sr_csv))
      /\ NoDup (map ScanRecords.ss_state
                    (ScanRecords.state_summary (ScanRecords.load_data sr_csv)))
      /\ map ScanRecords.rs_state
             (ScanRecords.repeat_user_state (ScanRecords.load_data sr_csv))
         = map ScanRecords.ss_state
               (ScanRecords.state_summary (ScanRecords.load_data sr_csv))).
Proof.
  split; [split | split; [|split]].
  - apply Forall_forall. intros [k n] I. cbn [fst].
    apply (in_map fst) in I. cbn [fst] in I.
    apply (proj1 (table_keys _ (rs2_state_counts_perm _) k)) in I.
    apply rs2_loaded_state_valid with (csv := rs2_csv).
    now rewrite rs2_states_flat.
  - apply (table_NoDup _ (rs2_state_counts_perm _)).
  - unfold ScanRecords.state_summary. apply Forall_map, Forall_forall.
    intros [k n] I. cbn [ScanRecords.ss_state fst].
    apply (in_map fst) in I. cbn [fst] in I.
    apply (proj1 (table_keys _ (sr_state_counts_perm _) k)) in I.
    apply sr_loaded_state_valid with (csv := sr_csv).
    now rewrite sr_states_flat_plain.
  - unfold ScanRecords.state_summary. rewrite map_map. cbn [ScanRecords.ss_state].
    apply (table_NoDup _ (sr_state_counts_perm _)).
  - pose proof (sr_repeat_user_state_rows (ScanRecords.load_data sr_csv)) as E.
    apply (f_equal (map fst)) in E. rewrite !map_map in E. cbn [fst] in E.
    etransitivity; [exact E|].
    unfold ScanRecords.state_summary. now rewrite map_map.
Qed.

(** X12. In [scan_records_dashboard] the column
    [repeat_user_share_in_state] is 0 in every row, whatever the data: its
    two operands carry different labels (row numbers and state codes), so
    the division finds no common label and [fillna(0)] fills every
    value. *)
Theorem repeat_user_share_in_state_is_zero (df : list ScanRecords.Row) :
  Forall (fun row => ScanRecords.rs_repeat_user_share_in_state row = Num 0)
         (ScanRecords.repeat_user_state df)
  /\ List.length (ScanRecords.repeat_user_state df)
     = List.length (ScanRecords.state_counts df).
Proof.
  split.
  - eapply Forall_impl; [|apply sr_repeat_user_state_unit].
    intros row (_ & Z & _). exact Z.
  - rewrite <- (length_map (fun row => (ScanRecords.rs_state row,
                                        ScanRecords.rs_repeat_users row))).
    now rewrite sr_repeat_user_state_rows, length_map.
Qed.

(** X13. Per state, the counts of [scan_records_dashboard] are nested:
    the repeat scans of a state are at most its scans, the repeat users of
    a state are at most all repeat users, and the scans of all states
    together are at most the total scans. *)
Theorem scan_records_state_counts_nested (df : list ScanRecords.Row) :
  Forall (fun row => ScanRecords.ss_repeat_scans row <= ScanRecords.ss_total_scans row)
         (ScanRecords.state_summary df)
  /\ Forall (fun row => ScanRecords.rs_repeat_users row <= ScanRecords.repeat_users df)
            (ScanRecords.repeat_user_state df)
  /\ list_sum (map ScanRecords.ss_total_scans (ScanRecords.state_summary df))
     <= ScanRecords.total_scans df.
Proof.
  split; [|split].
  - eapply Forall_impl; [|apply sr_state_summary_rows].
    intros row (-> & _ & ->). rewrite <- !sr_occ_states.
    apply occ_flat_map_filter.
  - apply Forall_forall. intros row I.
    apply (in_map (fun row => (ScanRecords.rs_state row,
                               ScanRecords.rs_repeat_users row))) in I.
    rewrite sr_repeat_user_state_rows in I.
    apply in_map_iff in I as (p & [= _ <-] & _).
    rewrite <- sr_occ_states. apply sr_repeat_users_in_state_le.
  - rewrite sr_state_summary_total. apply filter_length_le.
Qed.

Lemma sort_values_desc_sorted_id {A} (cnt : A -> nat) (before : A -> A -> Prop)
      (l : list A) :
  StronglySorted (ranked cnt before) l -> sort_values_desc cnt l = l.
Proof.
  induction l as [|x l IH]; intros S; [reflexivity|].
  inversion S as [|? ? S' F]; subst. cbn [sort_values_desc fold_right].
  fold (sort_values_desc cnt l). rewrite (IH S').
  destruct l as [|y l]; [reflexivity|]. cbn [insert_desc].
  inversion F as [|? ? R _]; subst. apply ranked_count_le in R.
  destruct (Nat.ltb_spec (cnt x) (cnt y)); [lia | reflexivity].
Qed.

(** X14. [build_figures] of [scan_records_dashboard]: [state_summary] is
    already sorted by descending scans, so the "top states" chart,
    [nlargest(10, "total_scans")], shows its first ten rows in their
    order, and no state outside the chart has more scans than a state in
    it. *)
Theorem scan_records_top_states_are_first_ten (df : list ScanRecords.Row) :
  ScanRecords.top_states (ScanRecords.state_summary df)
  = firstn 10 (ScanRecords.state_summary df)
  /\ forall row other,
       In row (ScanRecords.top_states (ScanRecords.state_summary df)) ->
       In other (ScanRecords.state_summary df) ->
       In other (ScanRecords.top_states (ScanRecords.state_summary df))
       \/ ScanRecords.ss_total_scans other <= ScanRecords.ss_total_scans row.
Proof.
  split.
  - unfold ScanRecords.top_states, nlargest.
    now rewrite (sort_values_desc_sorted_id (sr_state_summary_ranked df)).
  - intros row other. apply nlargest_is_top.
Qed.

(** ** More on the hourly series *)

Lemma dropna_num_none {A} (col : list (option A)) :
  dropna_num col = [] ->
  existsb (fun t => match t with Some _ => true | None => false end) col = false.
Proof.
  induction col as [|[a|] col IH]; simpl; intros E;
    [reflexivity | discriminate | now apply IH].
Qed.

(** X15. The hourly series of [rs2_dr_dashboard] never has more than 24
    rows, is empty exactly when no timestamp is readable, and every bucket
    starts on a whole hour. *)
Theorem hourly_at_most_24_whole_hours (df : list Rs2.Row) :
  List.length (Rs2.hourly df) <= 24
  /\ (Rs2.hourly df = [] <-> dropna_num (map Rs2.CreatedDateTimeUTC df) = [])
  /\ Forall (fun p => (fst p mod Rs2.HOUR = 0)%Z) (Rs2.hourly df).
Proof.
  destruct (dropna_num (map Rs2.CreatedDateTimeUTC df)) as [|t0 rest] eqn:Hts.
  - assert (E : Rs2.hourly df = []).
    { unfold Rs2.hourly. now rewrite (dropna_num_none _ Hts). }
    rewrite E. repeat split; try constructor. simpl. lia.
  - pose proof (hourly_window_eq df Hts) as E. cbv zeta in E. rewrite E.
    set (n := Nat.min _ 24). split; [|split].
    + rewrite length_map, length_seq. unfold n. lia.
    + split; [|discriminate]. intros C. exfalso.
      apply (f_equal (@List.length _)) in C.
      rewrite length_map, length_seq in C. unfold n in C. simpl in C. lia.
    + apply Forall_map, Forall_forall. intros i _. cbn [fst].
      set (q := (zmax t0 rest / Rs2.HOUR)%Z).
      replace (q * Rs2.HOUR - Z.of_nat (n - 1 - i) * Rs2.HOUR)%Z
        with ((q - Z.of_nat (n - 1 - i)) * Rs2.HOUR)%Z by ring.
      apply Z_mod_mult.
Qed.

Lemma zmin_le_In (t0 : Z) (rest : list Z) (t : Z) :
  In t (t0 :: rest) -> (zmin t0 rest <= t)%Z.
Proof.
  unfold zmin.
  assert (G : forall l a, (fold_left Z.min l a <= a)%Z
                          /\ forall x, In x l -> (fold_left Z.min l a <= x)%Z).
  { induction l as [|y l IH]; intros a; simpl; [split; [lia | tauto]|].
    destruct (IH (Z.min a y)) as [L1 L2]. split; [lia|].
    intros x [->|I]; [lia | now apply L2]. }
  destruct (G rest t0) as [L1 L2]. intros [<-|I]; [exact L1 | now apply L2].
Qed.

Lemma zmax_ge_In (t0 : Z) (rest : list Z) (t : Z) :
  In t (t0 :: rest) -> (t <= zmax t0 rest)%Z.
Proof.
  unfold zmax.
  assert (G : forall l a, (a <= fold_left Z.max l a)%Z
                          /\ forall x, In x l -> (x <= fold_left Z.max l a)%Z).
  { induction l as [|y l IH]; intros a; simpl; [split; [lia | tauto]|].
    destruct (IH (Z.max a y)) as [L1 L2]. split; [lia|].
    intros x [->|I]; [lia | now apply L2]. }
  destruct (G rest t0) as [L1 L2]. intros [<-|I]; [exact L1 | now apply L2].
Qed.

Lemma list_sum_map_add {A} (a b : A -> nat) (l : list A) :
  list_sum (map (fun i => a i + b i) l) = list_sum (map a l) + list_sum (map b l).
Proof.
  induction l as [|x l IH]; [reflexivity|].
  cbn [map]. change (list_sum (?h :: ?t)) with (h + list_sum t).
  repeat match goal with
         | |- context [list_sum (?h :: ?t)] =>
             change (list_sum (h :: t)) with (h + list_sum t)
         end.
  lia.
Qed.

Lemma indicator_sum (j n : nat) :
  list_sum (map (fun i => if i =? j then 1 else 0) (seq 0 n))
  = if j <? n then 1 else 0.
Proof.
  induction n as [|n IH]; [reflexivity|].
  rewrite seq_S, map_app, list_sum_app, IH. cbn [map]. change (0 + n) with n.
  change (list_sum [if n =? j then 1 else 0]) with ((if n =? j then 1 else 0) + 0).
  destruct (Nat.ltb_spec j n), (Nat.eqb_spec n j), (Nat.ltb_spec j (S n)); lia.
Qed.

(** Buckets that are told apart and that cover every element share out
    the elements: their sizes add up to the number of elements. *)
Lemma count_partition (g : Z -> Z) (f : nat -> Z) (n : nat) (l : list Z) :
  (forall i j, i < n -> j < n -> f i = f j -> i = j) ->
  (forall t, In t l -> exists j, j < n /\ g t = f j) ->
  list_sum (map (fun i => List.length (filter (fun t => (g t =? f i)%Z) l))
                (seq 0 n))
  = List.length l.
Proof.
  intros Inj Cov. induction l as [|t l IH].
  - cbn [filter List.length]. induction (seq 0 n); [reflexivity | assumption].
  - destruct (Cov t (or_introl eq_refl)) as (j & Hj & Ej).
    rewrite (map_ext_in _ (fun i => (if i =? j then 1 else 0)
                                    + List.length (filter (fun x => (g x =? f i)%Z) l))).
    + rewrite list_sum_map_add, indicator_sum, IH.
      * destruct (Nat.ltb_spec j n); [reflexivity | lia].
      * intros x Ix. apply Cov. now right.
    + intros i Hi. apply in_seq in Hi. cbn [filter].
      destruct (Nat.eqb_spec i j) as [->|N].
      * rewrite Ej, Z.eqb_refl. reflexivity.
      * destruct (Z.eqb_spec (g t) (f i)) as [E|E]; [|reflexivity].
        exfalso. apply N. apply Inj; [lia | assumption | congruence].
Qed.

Section HourlyCounts.
Variable df : list Rs2.Row.
Variables (t0 : Z) (rest : list Z).
Hypothesis Hts : dropna_num (map Rs2.CreatedDateTimeUTC df) = t0 :: rest.

Local Abbreviation floor := (fun t : Z => (t / Rs2.HOUR * Rs2.HOUR)%Z).
Local Abbreviation lo := (floor (zmin t0 rest)).
Local Abbreviation hi := (floor (zmax t0 rest)).
Local Abbreviation last_index := (Z.to_nat ((hi - lo) / Rs2.HOUR)).
Local Abbreviation size_of :=
  (fun i : nat =>
     List.length (filter (fun t => (floor t =? lo + Z.of_nat i * Rs2.HOUR)%Z)
                         (t0 :: rest))).

Lemma hourly_counts :
  map snd (Rs2.hourly df)
  = map size_of (seq (last_index - 23) (S last_index - (last_index - 23))).
Proof. rewrite (hourly_filtered df Hts), map_map. reflexivity. Qed.

(** Over all the buckets from the first to the last, every readable
    timestamp is counted once. *)
Lemma resample_counts_all :
  list_sum (map size_of (seq 0 (S last_index))) = List.length (t0 :: rest).
Proof.
  apply (count_partition floor (fun i => (lo + Z.of_nat i * Rs2.HOUR)%Z)).
  - intros i j _ _ E. unfold Rs2.HOUR in E. lia.
  - intros t It.
    pose proof (zmin_le_In It) as L1.
    pose proof (zmax_ge_In It) as L2.
    exists (Z.to_nat ((floor t - lo) / Rs2.HOUR)).
    set (a := zmin t0 rest) in *. set (b := zmax t0 rest) in *.
    unfold Rs2.HOUR. split.
    + apply Nat.lt_succ_r, Z2Nat.inj_le; Z.div_mod_to_equations; lia.
    + rewrite Z2Nat.id; Z.div_mod_to_equations; lia.
Qed.

Lemma hourly_counts_le :
  list_sum (map snd (Rs2.hourly df)) <= List.length (t0 :: rest).
Proof.
  rewrite hourly_counts, <- resample_counts_all.
  set (m := last_index).
  replace (S m) with ((m - 23) + (S m - (m - 23))) at 2 by lia.
  rewrite seq_app, map_app, list_sum_app. cbn [Nat.add]. lia.
Qed.

Lemma hourly_counts_eq :
  (zmax t0 rest / Rs2.HOUR - zmin t0 rest / Rs2.HOUR < 24)%Z ->
  list_sum (map snd (Rs2.hourly df)) = List.length (t0 :: rest).
Proof.
  intros Hspan. rewrite hourly_counts, <- resample_counts_all.
  assert (E : last_index - 23 = 0).
  { pose proof (zmin_le_zmax t0 rest).
    set (a := zmin t0 rest) in *. set (b := zmax t0 rest) in *.
    unfold Rs2.HOUR in *.
    assert (Z.to_nat ((b / 3600000000000 * 3600000000000
                       - a / 3600000000000 * 3600000000000) / 3600000000000) <= 23);
      [|lia].
    apply Nat2Z.inj_le. rewrite Z2Nat.id; Z.div_mod_to_equations; lia. }
  rewrite E, Nat.sub_0_r. reflexivity.
Qed.

End HourlyCounts.

(** X16. The hourly series of [rs2_dr_dashboard] counts no scan twice and
    invents none: its counts add up to at most the number of readable
    timestamps, and to exactly that number when the data span fewer than
    24 hours between the first and the last hourly bucket. *)
Theorem hourly_counts_conserved (df : list Rs2.Row) :
  list_sum (map snd (Rs2.hourly df))
  <= List.length (dropna_num (map Rs2.CreatedDateTimeUTC df))
  /\ forall t0 rest,
       dropna_num (map Rs2.CreatedDateTimeUTC df) = t0 :: rest ->
       (zmax t0 rest / Rs2.HOUR - zmin t0 rest / Rs2.HOUR < 24)%Z ->
       list_sum (map snd (Rs2.hourly df)) = List.length (t0 :: rest).
Proof.
  split.
  - destruct (dropna_num (map Rs2.CreatedDateTimeUTC df)) as [|t0 rest] eqn:Hts.
    + unfold Rs2.hourly. now rewrite (dropna_num_none _ Hts).
    + now apply hourly_counts_le.
  - intros t0 rest Hts. now apply hourly_counts_eq.
Qed.

Lemma hourly_counts_conserved_witness :
  let df := Rs2.load_data
              [Rs2.sample_csv NaN NaN (Str "CA") (Some 5%Z);
               Rs2.sample_csv NaN NaN (Str "CA") None;
               Rs2.sample_csv NaN NaN (Str "TX") (Some (3 * Rs2.HOUR + 7)%Z);
               Rs2.sample_csv NaN NaN (Str "TX") (Some (3 * Rs2.HOUR + 9)%Z)] in
  list_sum (map snd (Rs2.hourly df)) = 3.
Proof.
  intros df.
  pose proof (hourly_counts_conserved df) as [_ H].
  apply (H 5%Z [(3 * Rs2.HOUR + 7)%Z; (3 * Rs2.HOUR + 9)%Z]).
  - reflexivity.
  - vm_compute. reflexivity.
Defined.

(** ** Vehicle age *)

Lemma sum_bounds (M : Q) (l : list Q) :
  Forall (fun x => (0 <= x /\ x <= M)%Q) l ->
  (0 <= fold_right Qplus 0 l
   /\ fold_right Qplus 0 l <= M * inject_Z (Z.of_nat (List.length l)))%Q.
Proof.
  induction l as [|x l IH]; intros F.
  - simpl. split; [apply Qle_refl|]. rewrite Qmult_0_r. apply Qle_refl.
  - inversion F as [|? ? [Hx0 HxM] F']; subst. destruct (IH F') as [S0 SM].
    cbn [fold_right List.length]. rewrite Nat2Z.inj_succ, <- Z.add_1_r, inject_Z_plus.
    change (inject_Z 1) with 1%Q. split; lra.
Qed.

Lemma safe_mean_bounds (M : Q) (col : list (option Q)) :
  (0 <= M)%Q ->
  Forall (fun x => (0 <= x /\ x <= M)%Q) (dropna_num col) ->
  (0 <= Rs2.safe_mean col /\ Rs2.safe_mean col <= M)%Q.
Proof.
  intros HM F. unfold Rs2.safe_mean.
  destruct (dropna_num col) as [|x l] eqn:E; [split; [apply Qle_refl | exact HM]|].
  destruct (sum_bounds F) as [S0 SM].
  assert (P : (0 < inject_Z (Z.of_nat (List.length (x :: l))))%Q).
  { change 0%Q with (inject_Z 0). rewrite <- Zlt_Qlt. simpl. lia. }
  split.
  - apply Qle_shift_div_l; [exact P|]. now rewrite Qmult_0_l.
  - apply Qle_shift_div_r; [exact P | exact SM].
Qed.

Lemma vehicle_age_range (year : option Q) :
  match Rs2.vehicle_age year with
  | Some a => (0 <= a /\ a <= 46)%Q
  | None => True
  end.
Proof.
  unfold Rs2.vehicle_age. destruct year as [y|]; [|exact I].
  destruct (Qle_bool 1980 y && Qle_bool y 2026) eqn:E; [|exact I].
  apply andb_true_iff in E as [E1 E2].
  apply Qle_bool_iff in E1, E2. split; lra.
Qed.

(** X17. [load_data] of [rs2_dr_dashboard] keeps a vehicle age only for a
    year from 1980 to 2026, so every age present is between 0 and 46, and
    so is the "Average vehicle age" card, whatever the input. *)
Theorem vehicle_age_between_0_and_46 (csv : list Rs2.Csv) :
  Forall (fun r => match Rs2.VehicleAge r with
                   | Some a =>
                       (0 <= a /\ a <= 46)%Q
                       /\ exists y, Rs2.Year r = Some y
                                    /\ (1980 <= y /\ y <= 2026)%Q
                                    /\ a = (2026 - y)%Q
                   | None => True
                   end)
         (Rs2.load_data csv)
  /\ (0 <= Rs2.avg_age (Rs2.load_data csv)
      /\ Rs2.avg_age (Rs2.load_data csv) <= 46)%Q.
Proof.
  split.
  - apply Forall_map, Forall_forall. intros r _.
    cbn [Rs2.load_row Rs2.VehicleAge Rs2.Year].
    pose proof (vehicle_age_range (Rs2.csv_Year r)) as R.
    unfold Rs2.vehicle_age in *. destruct (Rs2.csv_Year r) as [y|]; [|exact I].
    destruct (Qle_bool 1980 y && Qle_bool y 2026) eqn:E; [|exact I].
    split; [exact R|]. exists y.
    apply andb_true_iff in E as [E1 E2]. apply Qle_bool_iff in E1, E2.
    repeat split; assumption.
  - unfold Rs2.avg_age. apply safe_mean_bounds; [discriminate|].
    apply Forall_forall. intros a Ia.
    unfold dropna_num in Ia. apply in_flat_map in Ia as (o & Io & Ia).
    apply in_map_iff in Io as (r & <- & Ir).
    apply in_map_iff in Ir as (c & <- & _).
    cbn [Rs2.load_row Rs2.VehicleAge] in Ia.
    pose proof (vehicle_age_range (Rs2.csv_Year c)) as R.
    destruct (Rs2.vehicle_age (Rs2.csv_Year c)); [|contradiction].
    destruct Ia as [<-|[]]. exact R.
Qed.

(** ** Missing account ids in scan_records_dashboard *)

Lemma scan_records_nan_key (r : ScanRecords.Csv) :
  ScanRecords.csv_AccountId r = NaN ->
  ScanRecords.AccountKey (ScanRecords.load_row r) = Str "nan".
Proof. intros E. unfold ScanRecords.load_row. rewrite E. reflexivity. Qed.

Lemma scan_records_nan_rows (csv : list ScanRecords.Csv) :
  List.length (filter (fun r => keqb (ScanRecords.csv_AccountId r) NaN) csv)
  <= List.length
       (filter (fun r => keqb (ScanRecords.AccountKey r) (Str "nan"))
               (ScanRecords.load_data csv)).
Proof.
  induction csv as [|r csv IH]; [apply Nat.le_refl|].
  cbn [ScanRecords.load_data map filter].
  fold (ScanRecords.load_data csv).
  destruct (ScanRecords.csv_AccountId r) eqn:E;
    try (change (keqb (Str s) NaN) with false);
    try (change (keqb NA NaN) with false);
    try (change (keqb PyNone NaN) with false);
    try (destruct (keqb (ScanRecords.AccountKey (ScanRecords.load_row r))
                        (Str "nan")); cbn [List.length]; lia).
  change (keqb NaN NaN) with true.
  rewrite (scan_records_nan_key r E).
  change (keqb (Str "nan") (Str "nan")) with true. cbn [List.length]. lia.
Qed.

(** X18. In [scan_records_dashboard] all rows whose AccountId is missing
    share the user key ["nan"], whatever their Email: from two such rows
    on, ["nan"] is a repeat user, the repeat users are at least 1 and the
    repeat-user scans at least the number of those rows. *)
Theorem missing_account_ids_form_one_repeat_user (csv : list ScanRecords.Csv)
  (Hmissing :
     2 <= List.length
            (filter (fun r => keqb (ScanRecords.csv_AccountId r) NaN) csv)) :
  let df := ScanRecords.load_data csv in
  In "nan"%string (ScanRecords.repeat_user_ids df)
  /\ 1 <= ScanRecords.repeat_users df
  /\ List.length (filter (fun r => keqb (ScanRecords.csv_AccountId r) NaN) csv)
     <= ScanRecords.repeat_user_scans df.
Proof.
  intros df.
  pose proof (scan_records_nan_rows csv) as L. fold df in L.
  rewrite <- scan_records_occ_keys in L.
  set (keys := dropna (map ScanRecords.AccountKey df)) in *.
  pose proof (groupby_size_perm keys) as P.
  assert (I : In ("nan"%string, occ "nan"%string keys)
                 (ScanRecords.repeat_user_counts df)).
  { unfold ScanRecords.repeat_user_counts, ScanRecords.user_counts. fold keys.
    apply filter_In. split.
    - apply (table_In keys P). lia.
    - cbn [snd]. apply Nat.ltb_lt. lia. }
  split; [|split].
  - apply (in_map fst) in I. exact I.
  - rewrite <- sr_repeat_users_length. unfold ScanRecords.repeat_user_ids.
    rewrite length_map. destruct (ScanRecords.repeat_user_counts df);
      [contradiction | simpl; lia].
  - etransitivity; [exact L|]. unfold ScanRecords.repeat_user_scans, total.
    apply (in_map snd) in I. cbn [snd] in I.
    revert I. generalize (map snd (ScanRecords.repeat_user_counts df)).
    induction l as [|x l IHl]; [contradiction|].
    change (list_sum (x :: l)) with (x + list_sum l).
    intros [->|I]; [lia | apply IHl in I; lia].
Qed.

Lemma missing_account_ids_form_one_repeat_user_witness :
  let csv := [ScanRecords.sample_csv NaN (Str "a@x.com") (Str "1") (Str "CA");
              ScanRecords.sample_csv NaN (Str "b@x.com") (Str "2") (Str "TX")] in
  In "nan"%string (ScanRecords.repeat_user_ids (ScanRecords.load_data csv))
  /\ 1 <= ScanRecords.repeat_users (ScanRecords.load_data csv).
Proof.
  intros csv.
  assert (H : 2 <= List.length
                     (filter (fun r => keqb (ScanRecords.csv_AccountId r) NaN) csv))
    by (vm_compute; lia).
  pose proof (missing_account_ids_form_one_repeat_user csv H) as (A & B & _).
  split; assumption.
Defined.

(** ** Exploding two columns *)

Lemma spec_tokens_app (s1 s2 : list cell) :
  spec_tokens (s1 ++ s2) = spec_tokens s1 ++ spec_tokens s2.
Proof.
  unfold spec_tokens, dropna. now rewrite !flat_map_app.
Qed.

(** X19. [explode_parts] adds up over rows: the count of a part name in
    two columns put end to end is the sum of its counts in each, a name
    absent from a counter counting for 0. *)
Theorem explode_parts_additive (s1 s2 : list cell) (t : string) :
  let count := fun series =>
    match get t (Rs2.explode_parts series) with Some n => n | None => 0 end in
  count (s1 ++ s2) = count s1 + count s2.
Proof.
  intros count. unfold count. rewrite !explode_parts_count_first.
  rewrite !get_count_first, spec_tokens_app, occ_app.
  destruct (Nat.eqb_spec (occ t (spec_tokens s1) + occ t (spec_tokens s2)) 0),
    (Nat.eqb_spec (occ t (spec_tokens s1)) 0),
    (Nat.eqb_spec (occ t (spec_tokens s2)) 0); lia.
Qed.

(** ** The latest hourly bucket *)

Lemma zmax_In (t0 : Z) (rest : list Z) : In (zmax t0 rest) (t0 :: rest).
Proof.
  unfold zmax. revert t0. induction rest as [|y l IH]; intros t0; simpl.
  - now left.
  - destruct (IH (Z.max t0 y)) as [E|I].
    + rewrite <- E.
      destruct (Z.max_spec t0 y) as [[_ M]|[_ M]]; rewrite M;
        [right; left | left]; reflexivity.
    + right. right. exact I.
Qed.

(** X20. When a timestamp is readable, the last row of the hourly series
    is the bucket of the latest timestamp in the data, and it holds at
    least one scan. *)
Theorem hourly_ends_at_latest_scan (df : list Rs2.Row) (t0 : Z) (rest : list Z)
  (Hts : dropna_num (map Rs2.CreatedDateTimeUTC df) = t0 :: rest) :
  exists c,
    last (Rs2.hourly df) (0%Z, 0)
    = ((zmax t0 rest / Rs2.HOUR * Rs2.HOUR)%Z, c)
    /\ 1 <= c.
Proof.
  pose proof (hourly_window_eq df Hts) as E. cbv zeta in E. rewrite E.
  set (n := Nat.min _ 24).
  assert (Hn : n = S (n - 1)) by (unfold n; lia).
  replace (seq 0 n) with (seq 0 (n - 1) ++ [n - 1])
    by (rewrite Hn at 3; now rewrite seq_S).
  rewrite map_app. cbn [map]. rewrite last_last.
  replace (n - 1 - (n - 1)) with 0 by lia.
  change (Z.of_nat 0 * Rs2.HOUR)%Z with 0%Z. rewrite Z.sub_0_r.
  eexists. split; [reflexivity|].
  assert (I : In (zmax t0 rest)
                 (filter (fun t => (t / Rs2.HOUR * Rs2.HOUR
                                    =? zmax t0 rest / Rs2.HOUR * Rs2.HOUR)%Z)
                         (t0 :: rest))).
  { apply filter_In. split; [apply zmax_In | apply Z.eqb_refl]. }
  destruct (filter _ (t0 :: rest)); [contradiction | simpl; lia].
Qed.

Lemma hourly_ends_at_latest_scan_witness :
  let df := Rs2.load_data
              [Rs2.sample_csv NaN NaN (Str "CA") (Some (2 * Rs2.HOUR + 1)%Z);
               Rs2.sample_csv NaN NaN (Str "CA") (Some 30%Z)] in
  exists c, last (Rs2.hourly df) (0%Z, 0) = ((2 * Rs2.HOUR)%Z, c) /\ 1 <= c.
Proof.
  intros df.
  exact (hourly_ends_at_latest_scan df (t0 := (2 * Rs2.HOUR + 1)%Z)
           (rest := [30%Z]) eq_refl).
Defined.

(* ================================================================== *)
(** * Ranked tables under any sorting routine *)
(* ================================================================== *)

(** Two descending lists with the same elements are equal. *)
Lemma descending_perm_eq (l1 : list nat) : forall l2,
  Permutation l1 l2 ->
  StronglySorted (fun a b => b <= a) l1 ->
  StronglySorted (fun a b => b <= a) l2 ->
  l1 = l2.
Proof.
  induction l1 as [|x l1 IH]; intros l2 P S1 S2.
  - apply Permutation_nil in P. now subst.
  - destruct l2 as [|y l2].
    + apply Permutation_sym, Permutation_nil in P. discriminate.
    + inversion S1 as [|? ? S1' F1]; subst. inversion S2 as [|? ? S2' F2]; subst.
      rewrite Forall_forall in F1, F2.
      assert (Lxy : x <= y).
      { assert (I : In x (y :: l2)) by (apply (Permutation_in _ P); now left).
        destruct I as [->|I]; [lia | now apply F2]. }
      assert (Lyx : y <= x).
      { assert (I : In y (x :: l1))
          by (apply (Permutation_in _ (Permutation_sym P)); now left).
        destruct I as [->|I]; [lia | now apply F1]. }
      assert (E : x = y) by lia. subst y. f_equal.
      apply IH; [now apply Permutation_cons_inv in P | assumption | assumption].
Qed.

Section AnySort.
Context {A : Type} (cnt : A -> nat).

Lemma sort_values_desc_descending (l : list A) :
  StronglySorted (fun a b => cnt b <= cnt a) (sort_values_desc cnt l).
Proof.
  eapply StronglySorted_weaken;
    [|apply (sort_values_desc_sorted cnt (StronglySorted_trivial l))].
  intros a b _ _. apply ranked_count_le.
Qed.

Lemma sort_values_desc_allowed (l : list A) :
  sorted_desc_of cnt l (sort_values_desc cnt l).
Proof. split; [apply sort_values_desc_perm | apply sort_values_desc_descending]. Qed.

(** Every descending order of the rows lists the same counts, row by
    row, as the stable one: only rows of equal count can change
    places. *)
Lemma any_sort_same_counts (tbl0 tbl : list A) :
  sorted_desc_of cnt tbl0 tbl ->
  map cnt tbl = map cnt (sort_values_desc cnt tbl0).
Proof.
  intros [P S]. apply descending_perm_eq.
  - apply Permutation_map. rewrite P. symmetry. apply sort_values_desc_perm.
  - now apply StronglySorted_map_inv.
  - apply StronglySorted_map_inv, sort_values_desc_descending.
Qed.

Lemma any_sort_same_top (n : nat) (tbl0 tbl : list A) :
  sorted_desc_of cnt tbl0 tbl ->
  map cnt (firstn n tbl) = map cnt (firstn n (sort_values_desc cnt tbl0)).
Proof.
  intros H. rewrite <- !firstn_map. f_equal. now apply any_sort_same_counts.
Qed.

End AnySort.

Lemma sr_state_summary_counts (df : list ScanRecords.Row) :
  map ScanRecords.ss_total_scans (ScanRecords.state_summary df)
  = map snd (ScanRecords.state_counts df).
Proof. unfold ScanRecords.state_summary. now rewrite map_map. Qed.

(** C2, as far as the code goes. Every ranked table (top vehicles, top
    scan tools, top MIL DTC, top states of either script) has at most [N]
    rows ([N] = 5 for the scan-tool table, 10 for the others) and its rows
    are in descending order of count. The order of rows of equal count is
    left to pandas' sorting routine and is not promised; the statement
    covers every order the routine may give: whichever it is, the table
    lists the same counts, row by row. *)
Theorem ranked_tables_sorted (rs2 : list Rs2.Row) (sr : list ScanRecords.Row) :
  (List.length (Rs2.top_vehicles rs2) <= 10
   /\ StronglySorted (fun a b => snd b <= snd a) (Rs2.top_vehicles rs2)
   /\ forall tbl,
        sorted_desc_of snd (count_first (dropna (map Rs2.Vehicle rs2))) tbl ->
        map snd (firstn 10 tbl) = map snd (Rs2.top_vehicles rs2))
  /\ (List.length (Rs2.top_usb rs2) <= 5
      /\ StronglySorted (fun a b => snd b <= snd a) (Rs2.top_usb rs2)
      /\ forall tbl,
           sorted_desc_of snd
             (count_first (dropna_num (map Rs2.UsbProductId rs2))) tbl ->
           map snd (firstn 5 tbl) = map snd (Rs2.top_usb rs2))
  /\ (List.length (Rs2.mil_dtc_df rs2) <= 10
      /\ StronglySorted (fun a b => Rs2.md_Scans b <= Rs2.md_Scans a)
                        (Rs2.mil_dtc_df rs2)
      /\ forall tbl,
           sorted_desc_of snd
             (count_first (map Py.strip (dropna (map Rs2.MIL_DTC rs2)))) tbl ->
           map snd (firstn 10 tbl) = map Rs2.md_Scans (Rs2.mil_dtc_df rs2))
  /\ (List.length (Rs2.top_states rs2) <= 10
      /\ StronglySorted (fun a b => snd b <= snd a) (Rs2.top_states rs2)
      /\ forall tbl,
           sorted_desc_of snd
             (groupby_size
                (dropna (map Rs2.State
                   (filter (fun r => negb (isna (Rs2.State r))) rs2)))) tbl ->
           map snd (firstn 10 tbl) = map snd (Rs2.top_states rs2))
  /\ (List.length (ScanRecords.top_states (ScanRecords.state_summary sr)) <= 10
      /\ StronglySorted
           (fun a b => ScanRecords.ss_total_scans b <= ScanRecords.ss_total_scans a)
           (ScanRecords.top_states (ScanRecords.state_summary sr))
      /\ forall tbl,
           sorted_desc_of snd
             (groupby_size
                (dropna (map ScanRecords.State (ScanRecords.with_state sr)))) tbl ->
           map snd (firstn 10 tbl)
           = map ScanRecords.ss_total_scans
                 (ScanRecords.top_states (ScanRecords.state_summary sr))).
Proof.
  split; [|split; [|split; [|split]]]; (split; [|split]).
  - apply head_length.
  - apply StronglySorted_firstn, sort_values_desc_descending.
  - intros tbl H. now apply any_sort_same_top.
  - apply head_length.
  - apply StronglySorted_firstn, sort_values_desc_descending.
  - intros tbl H. now apply any_sort_same_top.
  - unfold Rs2.mil_dtc_df, Rs2.top_mil_dtc. rewrite length_map. apply head_length.
  - unfold Rs2.mil_dtc_df, Rs2.top_mil_dtc. apply StronglySorted_map_inv.
    cbn [Rs2.md_Scans]. apply StronglySorted_firstn, sort_values_desc_descending.
  - intros tbl H. unfold Rs2.mil_dtc_df, Rs2.top_mil_dtc.
    rewrite map_map. cbn [Rs2.md_Scans]. now apply any_sort_same_top.
  - apply head_length.
  - apply StronglySorted_firstn, sort_values_desc_descending.
  - intros tbl H. now apply any_sort_same_top.
  - apply nlargest_length.
  - apply StronglySorted_firstn, sort_values_desc_descending.
  - intros tbl H. unfold ScanRecords.top_states, nlargest.
    rewrite <- !firstn_map. f_equal.
    rewrite (any_sort_same_counts H).
    apply descending_perm_eq.
    + transitivity (map ScanRecords.ss_total_scans (ScanRecords.state_summary sr)).
      * rewrite sr_state_summary_counts. reflexivity.
      * apply Permutation_map. symmetry. apply sort_values_desc_perm.
    + apply StronglySorted_map_inv, sort_values_desc_descending.
    + apply StronglySorted_map_inv, sort_values_desc_descending.
Qed.

Lemma ranked_tables_sorted_witness :
  let df := Rs2.load_data [Rs2.sample_csv NaN NaN (Str "TX") None;
                           Rs2.sample_csv NaN NaN (Str "CA") None] in
  map snd (firstn 10 [("TX"%string, 1); ("CA"%string, 1)])
  = map snd (Rs2.top_states df).
Proof.
  intros df.
  pose proof (ranked_tables_sorted df []) as (_ & _ & _ & (_ & _ & H) & _).
  apply H. split.
  - apply perm_swap.
  - repeat constructor.
Defined.

(* ================================================================== *)
(** * Null states and the per-state rollups *)
(* ================================================================== *)

Section ScanRecordsRollups.
Import ScanRecords.
Variable df : list Row.

Local Abbreviation has s := (fun r : Row => keqb (State r) (Str s)).
Local Abbreviation is_repeat := (fun r : Row => cell_isin (AccountKey r) (repeat_user_ids df)).

Lemma sr_user_state_In (r : Row) :
  In r (user_state df) -> In r df /\ isna (State r) = false.
Proof.
  unfold user_state, with_state. intros I. apply ddb_In in I as [I _].
  apply filter_In in I as [I N]. split; [assumption|].
  now apply negb_true_iff in N.
Qed.

Lemma sr_user_state_complete (r : Row) :
  In r df -> isna (State r) = false ->
  exists r', In r' (user_state df)
             /\ State r' = State r /\ AccountKey r' = AccountKey r.
Proof.
  intros I N.
  assert (Iw : In r (with_state df)).
  { apply filter_In. split; [assumption | now rewrite N]. }
  pose proof (ddb_complete (fun r => (State r, AccountKey r)) (with_state df)
                [] r Iw (fun F => F)) as C.
  apply in_map_iff in C as (r' & E & I'). exists r'.
  injection E as E1 E2. repeat split; assumption.
Qed.

(** The repeat users of a state, counted on the deduplicated frame, are
    the distinct repeat users among the records of that state. *)
Lemma sr_repeat_users_in_state_count (s : string) :
  List.length (filter (has s) (filter is_repeat (user_state df)))
  = nunique (map AccountKey (filter (fun r => has s r && is_repeat r) df)).
Proof.
  unfold nunique.
  rewrite <- (length_map AccountKey (filter (has s) _)).
  apply Permutation_length, NoDup_Permutation.
  - apply NoDup_map_finer with (f := fun r => (State r, AccountKey r)).
    + do 2 apply NoDup_map_filter. apply ddb_NoDup.
    + intros x y Ix Iy E.
      apply filter_In in Ix as [_ Ex]. apply filter_In in Iy as [_ Ey].
      apply keqb_eq in Ex. apply keqb_eq in Ey. congruence.
  - apply unique_NoDup.
  - intros c. rewrite unique_In. split; intros I;
      apply in_map_iff in I as (r & <- & I).
    + apply filter_In in I as [I Hs]. apply filter_In in I as [I Hr].
      apply sr_user_state_In in I as [I _].
      apply in_map, filter_In. split; [assumption|]. now rewrite Hs, Hr.
    + apply filter_In in I as [I H]. apply andb_true_iff in H as [Hs Hr].
      pose proof (proj1 (keqb_eq (State r) (Str s)) Hs) as Es.
      destruct (sr_user_state_complete r I) as (r' & I' & E1 & E2);
        [now rewrite Es|].
      rewrite <- E2. apply in_map, filter_In. split.
      * apply filter_In. split; [assumption | now rewrite E2].
      * now rewrite E1.
Qed.

Lemma sr_state_summary_states (s : string) :
  In s (map ss_state (state_summary df))
  <-> exists r, In r df /\ State r = Str s.
Proof.
  unfold state_summary. rewrite map_map. cbn [ss_state].
  rewrite (table_keys _ (sr_state_counts_perm df)), <- sr_states_flat_plain.
  rewrite In_dropna, in_map_iff. split; intros (r & A & B); exists r; tauto.
Qed.

Lemma sr_state_summary_shares :
  Forall (fun row =>
            ss_repeat_scan_share row = div (ss_repeat_scans row) (ss_total_scans row)
            /\ ss_scan_share row = div (ss_total_scans row) (or_one (List.length df)))
         (state_summary df).
Proof.
  unfold state_summary. apply Forall_map, Forall_forall. intros p _.
  split; reflexivity.
Qed.

Lemma sr_repeat_user_state_full :
  Forall (fun row =>
            rs_repeat_users row
            = nunique (map AccountKey
                (filter (fun r => has (rs_state row) r && is_repeat r) df))
            /\ rs_repeat_user_share_all_repeat row
               = div (rs_repeat_users row) (or_one (repeat_users df))
            /\ rs_repeat_user_share_in_state row = Num 0)
         (repeat_user_state df).
Proof.
  apply Forall_forall. intros row I. split; [|split].
  - apply (in_map (fun row => (rs_state row, rs_repeat_users row))) in I.
    rewrite sr_repeat_user_state_rows in I.
    apply in_map_iff in I as (p & [= <- <-] & _).
    apply sr_repeat_users_in_state_count.
  - unfold repeat_user_state in I. apply in_map_iff in I as (t & <- & _).
    reflexivity.
  - pose proof (sr_repeat_user_state_unit df) as U.
    rewrite Forall_forall in U. now apply U.
Qed.

Lemma sr_repeat_user_ids_iff (u : string) :
  In u (repeat_user_ids df)
  <-> 2 <= List.length (filter (fun r => keqb (AccountKey r) (Str u)) df).
Proof.
  unfold repeat_user_ids, repeat_user_counts, user_counts.
  rewrite <- scan_records_occ_keys.
  set (keys := dropna (map AccountKey df)).
  pose proof (groupby_size_perm keys) as P. split.
  - intros I. apply in_map_iff in I as ([k c] & E & I). cbn [fst] in E. subst k.
    apply filter_In in I as [I L]. apply (table_In keys P) in I as [-> _].
    cbn [snd] in L. apply Nat.ltb_lt in L. lia.
  - intros L. apply in_map_iff. exists (u, occ u keys). split; [reflexivity|].
    apply filter_In. split.
    + apply (table_In keys P). lia.
    + cbn [snd]. apply Nat.ltb_lt. lia.
Qed.

End ScanRecordsRollups.

Section Rs2Rollups.
Import Rs2.
Variable df : list Row.

Local Abbreviation has s := (fun r : Row => keqb (State r) (Str s)).
Local Abbreviation is_repeat :=
  (fun r : Row => match UserId r with
                  | Str u => isin u (repeat_accounts df)
                  | _ => false
                  end).

Lemma rs2_has_not_null (s : string) (r : Row) :
  has s r = true -> negb (isna (State r)) = true.
Proof.
  intros E. pose proof (proj1 (keqb_eq (State r) (Str s)) E) as E'.
  now rewrite E'.
Qed.

Lemma rs2_repeat_users_by_state_iff (s : string) (n : nat) :
  In (s, n) (repeat_users_by_state df)
  <-> n = nunique (dropna (map UserId (filter (has s) (filter is_repeat df))))
      /\ 0 < n.
Proof.
  unfold repeat_users_by_state. cbv zeta.
  set (rows := filter (fun r => negb (isna (State r))) (filter is_repeat df)).
  assert (F : filter (has s) rows = filter (has s) (filter is_repeat df)).
  { unfold rows. apply filter_filter_implied. apply rs2_has_not_null. }
  assert (K : In s (dropna (map State rows))
              <-> exists r, In r (filter (has s) (filter is_repeat df))).
  { rewrite In_dropna, in_map_iff. split.
    - intros (r & E & I). exists r. rewrite <- F. apply filter_In.
      split; [assumption|]. rewrite E. apply keqb_refl.
    - intros (r & I). rewrite <- F in I. apply filter_In in I as [I E].
      exists r. split; [|assumption].
      exact (proj1 (keqb_eq (State r) (Str s)) E). }
  assert (P : (exists r, In r (filter (has s) (filter is_repeat df)))
              <-> 0 < nunique (dropna (map UserId
                                  (filter (has s) (filter is_repeat df))))).
  { split.
    - intros (r & I).
      assert (R : is_repeat r = true).
      { apply filter_In in I as [I _]. now apply filter_In in I as [_ I]. }
      cbv beta in R.
      destruct (UserId r) as [u| | |] eqn:E; try discriminate R.
      assert (Iu : In u (dropna (map UserId
                           (filter (has s) (filter is_repeat df))))).
      { apply In_dropna, in_map_iff. now exists r. }
      destruct (nunique _) eqn:Z; [|lia].
      apply nunique_zero in Z. rewrite Z in Iu. contradiction.
    - intros L.
      destruct (dropna (map UserId (filter (has s) (filter is_repeat df))))
        as [|u l] eqn:E; [cbv in L; lia|].
      assert (Iu : In (Str u) (map UserId (filter (has s) (filter is_repeat df)))).
      { apply In_dropna. rewrite E. now left. }
      apply in_map_iff in Iu as (r & _ & I). now exists r. }
  split.
  - intros I. apply in_map_iff in I as ([s' c] & [= -> <-] & I). cbn [fst].
    change (filter (fun r : Row => cell_eqb (State r) (Str s)) rows)
      with (filter (has s) rows).
    rewrite F. split; [reflexivity|]. apply P, K.
    apply (in_map fst) in I. cbn [fst] in I.
    exact (proj1 (table_keys _ (groupby_size_perm _) s) I).
  - intros [-> L]. apply P, K in L.
    apply (proj2 (table_keys _ (groupby_size_perm _) s)) in L.
    apply in_map_iff in L as ([s' c] & E & I). cbn [fst] in E. subst s'.
    apply in_map_iff. exists (s, c). split; [|assumption].
    cbn [fst].
    change (filter (fun r : Row => cell_eqb (State r) (Str s)) rows)
      with (filter (has s) rows).
    now rewrite F.
Qed.

Lemma rs2_repeat_accounts_iff (u : string) :
  In u (repeat_accounts df)
  <-> exists v,
      2 <= List.length
             (filter (fun r => keqb (UserId r) (Str u) && keqb (VIN r) (Str v)) df).
Proof.
  unfold repeat_accounts, repeat_pairs.
  set (pairs := flat_map _ df).
  pose proof (groupby_size_perm pairs) as P. rewrite unique_In. split.
  - intros I. apply in_map_iff in I as ([[a v] c] & E & I). cbn [fst] in E.
    subst a. apply filter_In in I as [I L].
    apply (table_In pairs P) in I as [-> _]. cbn [snd] in L.
    apply Nat.leb_le in L. exists v. unfold pairs in L.
    now rewrite rs2_occ_pairs in L.
  - intros (v & L). rewrite <- rs2_occ_pairs in L. fold pairs in L.
    apply in_map_iff. exists (u, v, occ (u, v) pairs). split; [reflexivity|].
    apply filter_In. split.
    + apply (table_In pairs P). lia.
    + cbn [snd]. now apply Nat.leb_le.
Qed.

End Rs2Rollups.

(** C8, as far as the code goes. No per-state rollup has a row for a null
    state, and a record whose normalised state is null is counted in no
    row: in both scripts a state has a row exactly when some record
    carries it; its scans are the records of exactly that state; its
    repeat scans and repeat users count only records of that state whose
    user is a repeat user; and the scans of all rows add up to the number
    of records that have a state. The records without a state still count
    in what the rows are compared with: whether a user is a repeat user is
    decided over all records, and [scan_share] divides the scans of a
    state by the number of all records. ["california"] normalises to null
    and gets no row; [" ca "] normalises to ["CA"] and is counted. *)
Theorem null_state_has_no_row (rs2 : list Rs2.Row) (sr : list ScanRecords.Row) :
  ((forall s n,
       In (s, n) (Rs2.scans_by_state rs2)
       <-> n = List.length (filter (fun r => keqb (Rs2.State r) (Str s)) rs2)
           /\ 0 < n)
   /\ total (Rs2.scans_by_state rs2)
      = List.length (filter (fun r => negb (isna (Rs2.State r))) rs2)
   /\ (forall s n,
          In (s, n) (Rs2.repeat_users_by_state rs2)
          <-> n = nunique (dropna (map Rs2.UserId
                     (filter (fun r => keqb (Rs2.State r) (Str s))
                        (filter (fun r => match Rs2.UserId r with
                                          | Str u => isin u (Rs2.repeat_accounts rs2)
                                          | _ => false
                                          end) rs2))))
              /\ 0 < n)
   /\ (forall u,
          In u (Rs2.repeat_accounts rs2)
          <-> exists v,
              2 <= List.length
                     (filter (fun r => keqb (Rs2.UserId r) (Str u)
                                       && keqb (Rs2.VIN r) (Str v)) rs2)))
  /\ ((forall s,
          In s (map ScanRecords.ss_state (ScanRecords.state_summary sr))
          <-> exists r, In r sr /\ ScanRecords.State r = Str s)
      /\ Forall (fun row =>
                   ScanRecords.ss_total_scans row
                   = List.length
                       (filter (fun r => keqb (ScanRecords.State r)
                                              (Str (ScanRecords.ss_state row))) sr)
                   /\ 0 < ScanRecords.ss_total_scans row
                   /\ ScanRecords.ss_repeat_scans row
                      = List.length
                          (filter (fun r => keqb (ScanRecords.State r)
                                                 (Str (ScanRecords.ss_state row)))
                             (filter (fun r => ScanRecords.cell_isin
                                                 (ScanRecords.AccountKey r)
                                                 (ScanRecords.repeat_user_ids sr)) sr))
                   /\ ScanRecords.ss_repeat_scan_share row
                      = div (ScanRecords.ss_repeat_scans row)
                            (ScanRecords.ss_total_scans row)
                   /\ ScanRecords.ss_scan_share row
                      = div (ScanRecords.ss_total_scans row)
                            (or_one (List.length sr)))
                (ScanRecords.state_summary sr)
      /\ list_sum (map ScanRecords.ss_total_scans (ScanRecords.state_summary sr))
         = List.length (filter (fun r => negb (isna (ScanRecords.State r))) sr)
      /\ map ScanRecords.rs_state (ScanRecords.repeat_user_state sr)
         = map ScanRecords.ss_state (ScanRecords.state_summary sr)
      /\ Forall (fun row =>
                   ScanRecords.rs_repeat_users row
                   = nunique
                       (map ScanRecords.AccountKey
                          (filter (fun r =>
                                     keqb (ScanRecords.State r)
                                          (Str (ScanRecords.rs_state row))
                                     && ScanRecords.cell_isin
                                          (ScanRecords.AccountKey r)
                                          (ScanRecords.repeat_user_ids sr)) sr))
                   /\ ScanRecords.rs_repeat_user_share_all_repeat row
                      = div (ScanRecords.rs_repeat_users row)
                            (or_one (ScanRecords.repeat_users sr))
                   /\ ScanRecords.rs_repeat_user_share_in_state row = Num 0)
                (ScanRecords.repeat_user_state sr)
      /\ (forall u,
             In u (ScanRecords.repeat_user_ids sr)
             <-> 2 <= List.length
                        (filter (fun r => keqb (ScanRecords.AccountKey r) (Str u)) sr)))
  /\ (Rs2.normalize_state (Str " ca ") = Str "CA"
      /\ Rs2.normalize_state (Str "california") = NA
      /\ ScanRecords.normalize_state (Str " ca ") = Str "CA"
      /\ ScanRecords.normalize_state (Str "california") = NA
      /\ Rs2.scans_by_state
           (Rs2.load_data [Rs2.sample_csv NaN NaN (Str " ca ") None;
                           Rs2.sample_csv NaN NaN (Str "california") None])
         = [("CA"%string, 1)]
      /\ map (fun row => (ScanRecords.ss_state row, ScanRecords.ss_total_scans row))
             (ScanRecords.state_summary
                (ScanRecords.load_data
                   [ScanRecords.sample_csv (Str "1") NaN NaN (Str " ca ");
                    ScanRecords.sample_csv (Str "2") NaN NaN (Str "california")]))
         = [("CA"%string, 1)]).
Proof.
  split; [|split].
  - split; [|split; [|split]].
    + intros s n. apply rs2_state_counts_rows.
    + apply rs2_state_counts_total.
    + intros s n. apply rs2_repeat_users_by_state_iff.
    + intros u. apply rs2_repeat_accounts_iff.
  - split; [|split; [|split; [|split; [|split]]]].
    + intros s. apply sr_state_summary_states.
    + pose proof (sr_state_summary_rows sr) as R.
      pose proof (sr_state_summary_shares sr) as S.
      rewrite Forall_forall in *. intros row I.
      destruct (R row I) as (A & B & C). destruct (S row I) as (D & E).
      repeat split; assumption.
    + apply sr_state_summary_total.
    + pose proof (sr_repeat_user_state_rows sr) as E.
      apply (f_equal (map fst)) in E. rewrite !map_map in E. cbn [fst] in E.
      etransitivity; [exact E|].
      unfold ScanRecords.state_summary. now rewrite map_map.
    + apply sr_repeat_user_state_full.
    + intros u. apply sr_repeat_user_ids_iff.
  - repeat split.
Qed.

Lemma null_state_has_no_row_witness :
  let df := Rs2.load_data
              [Rs2.sample_csv (Str "7") (Str "1HGCM82633A004352") (Str " ca ") None;
               Rs2.sample_csv (Str "7") (Str "1HGCM82633A004352") (Str "CA") None;
               Rs2.sample_csv (Str "7") (Str "1HGCM82633A004352") (Str "california") None] in
  In ("CA"%string, 2) (Rs2.scans_by_state df)
  /\ In ("CA"%string, 1) (Rs2.repeat_users_by_state df)
  /\ In "7"%string (Rs2.repeat_accounts df).
Proof.
  intros df.
  pose proof (null_state_has_no_row df []) as ((A & _ & B & C) & _).
  split; [|split].
  - apply (A "CA"%string 2). split; [reflexivity | lia].
  - apply (B "CA"%string 1). split; [reflexivity | lia].
  - apply (C "7"%string). exists "1HGCM82633A004352"%string. vm_compute. lia.
Defined.

(** C8 as it is worded fails: a record without a state changes the row
    of a state. With one scan of user 7 in [" ca "], the row of CA has no
    repeat scan and a scan share of 1; one more scan of the same user with
    state ["california"] (normalised to null) has no row of its own, but
    makes the user a repeat user and is part of the total, so the row of
    CA shows 1 repeat scan, a repeat share of 1 and a scan share of 1/2.
    In [rs2_dr_dashboard] the same record makes CA appear in the repeat
    users by state. *)
Lemma null_state_record_changes_rollups :
  let base := [ScanRecords.sample_csv (Str "7") NaN (Str "V") (Str " ca ")] in
  let extra := ScanRecords.sample_csv (Str "7") NaN (Str "V") (Str "california") in
  let view := fun row =>
    (ScanRecords.ss_state row, ScanRecords.ss_total_scans row,
     ScanRecords.ss_repeat_scans row, ScanRecords.ss_repeat_scan_share row,
     ScanRecords.ss_scan_share row) in
  let rs2_base := [Rs2.sample_csv (Str "7") (Str "V") (Str " ca ") None] in
  let rs2_extra := Rs2.sample_csv (Str "7") (Str "V") (Str "california") None in
  ScanRecords.State (ScanRecords.load_row extra) = NA
  /\ map view (ScanRecords.state_summary (ScanRecords.load_data base))
     = [("CA"%string, 1, 0, Num (0 # 1), Num (1 # 1))]
  /\ map view (ScanRecords.state_summary (ScanRecords.load_data (base ++ [extra])))
     = [("CA"%string, 1, 1, Num (1 # 1), Num (1 # 2))]
  /\ ScanRecords.state_summary (ScanRecords.load_data (base ++ [extra]))
     <> ScanRecords.state_summary (ScanRecords.load_data base)
  /\ map ScanRecords.rs_repeat_users
         (ScanRecords.repeat_user_state (ScanRecords.load_data base)) = [0]
  /\ map ScanRecords.rs_repeat_users
         (ScanRecords.repeat_user_state (ScanRecords.load_data (base ++ [extra])))
     = [1]
  /\ Rs2.State (Rs2.load_row rs2_extra) = NA
  /\ Rs2.repeat_users_by_state (Rs2.load_data rs2_base) = []
  /\ Rs2.repeat_users_by_state (Rs2.load_data (rs2_base ++ [rs2_extra]))
     = [("CA"%string, 1)].
Proof.
  repeat split; try reflexivity.
  intros E. apply (f_equal (map ScanRecords.ss_repeat_scans)) in E.
  vm_compute in E. discriminate E.
Qed.
